(** * Payee side of a picopayments micropayment channel

    A shallow embedding of [picopayments/channel/payee.py] (class [Payee])
    together with the properties its specification states about it.

    Python objects are modelled as follows.
    - [str] values (hex strings, raw transactions, WIF keys) are [string];
      [bytes] values are [list byte].
    - A commit dictionary [{"rawtx", "script", "revoke_secret"}] is the
      record [Commit]; the channel object is the record [Payee].
    - A method is a computation in the monad [M]: it takes the channel,
      returns either a value or a raised exception, and the channel as the
      method left it.  A raised exception keeps every mutation made before
      it, as in Python.
    - [os.urandom(32)] is an explicit argument: the bytes that were drawn.
    - The collaborators ([util], [scripts], [control], [pycoin],
      [validate]) are interfaces, given as type classes; what the blockchain adapter
      answers is a function of its argument, one snapshot of the chain per
      call of a method.
    - Every method holds [self.mutex] for its whole body, so a method is one
      atomic step; the lock itself and [print] are left out. *)

From Stdlib Require Import ZArith List String Ascii Bool Lia.
From Stdlib Require Import Strings.Byte.
From Stdlib Require Import Permutation Sorted.
Import ListNotations.

Local Open Scope string_scope.
Local Open Scope list_scope.
Local Open Scope Z_scope.

(** ** Hex coding ([util.b2h], [util.h2b]) *)

Module Hex.

Definition hex_digit (n : N) : ascii :=
  match n with
  | 0 => "0" | 1 => "1" | 2 => "2" | 3 => "3" | 4 => "4" | 5 => "5"
  | 6 => "6" | 7 => "7" | 8 => "8" | 9 => "9" | 10 => "a" | 11 => "b"
  | 12 => "c" | 13 => "d" | 14 => "e" | _ => "f"
  end%N%char.

(** [binascii.unhexlify] reads digits of either case. *)
Definition hex_value (c : ascii) : option N :=
  let n := N_of_ascii c in
  if ((48 <=? n) && (n <=? 57))%N then Some (n - 48)%N
  else if ((97 <=? n) && (n <=? 102))%N then Some (n - 87)%N
  else if ((65 <=? n) && (n <=? 70))%N then Some (n - 55)%N
  else None.

Definition byte_hi (x : byte) : N := (Byte.to_N x / 16)%N.
Definition byte_lo (x : byte) : N := (Byte.to_N x mod 16)%N.

Definition byte_of_digits (c1 c2 : ascii) : option byte :=
  match hex_value c1, hex_value c2 with
  | Some hi, Some lo => Byte.of_N (16 * hi + lo)
  | _, _ => None
  end.

(** [binascii.hexlify(b).decode()]: two lower-case digits per byte. *)
Fixpoint b2h (b : list byte) : string :=
  match b with
  | [] => EmptyString
  | x :: rest =>
      String (hex_digit (byte_hi x)) (String (hex_digit (byte_lo x)) (b2h rest))
  end.

(** [binascii.unhexlify(h)]: [None] stands for the raised [binascii.Error]
    (odd length or a character that is no hex digit). *)
Fixpoint h2b (h : string) : option (list byte) :=
  match h with
  | EmptyString => Some []
  | String c1 (String c2 rest) =>
      match byte_of_digits c1 c2, h2b rest with
      | Some x, Some l => Some (x :: l)
      | _, _ => None
      end
  | String _ EmptyString => None
  end.

End Hex.
Import Hex.

(** ** Data model *)

(** One entry of [commits_active] / [commits_revoked]. *)
Record Commit := mkCommit {
  rawtx : string;
  script : string;
  revoke_secret : string
}.

(** The attributes of a channel object that [Payee] reads or writes. *)
Record Payee := mkPayee {
  payer_wif : option string;
  payee_wif : option string;
  spend_secret : option string;
  deposit_rawtx : option string;
  deposit_script_hex : option string;
  commits_requested : list string;
  commits_active : list Commit;
  commits_revoked : list Commit;
  payout_rawtxs : list string
}.

Definition set_payee_wif (w : option string) (p : Payee) : Payee :=
  mkPayee (payer_wif p) w (spend_secret p) (deposit_rawtx p)
    (deposit_script_hex p) (commits_requested p) (commits_active p)
    (commits_revoked p) (payout_rawtxs p).

Definition set_spend_secret (s : option string) (p : Payee) : Payee :=
  mkPayee (payer_wif p) (payee_wif p) s (deposit_rawtx p)
    (deposit_script_hex p) (commits_requested p) (commits_active p)
    (commits_revoked p) (payout_rawtxs p).

Definition set_deposit_rawtx (r : option string) (p : Payee) : Payee :=
  mkPayee (payer_wif p) (payee_wif p) (spend_secret p) r
    (deposit_script_hex p) (commits_requested p) (commits_active p)
    (commits_revoked p) (payout_rawtxs p).

Definition set_deposit_script_hex (h : option string) (p : Payee) : Payee :=
  mkPayee (payer_wif p) (payee_wif p) (spend_secret p) (deposit_rawtx p)
    h (commits_requested p) (commits_active p)
    (commits_revoked p) (payout_rawtxs p).

Definition set_commits_requested (l : list string) (p : Payee) : Payee :=
  mkPayee (payer_wif p) (payee_wif p) (spend_secret p) (deposit_rawtx p)
    (deposit_script_hex p) l (commits_active p)
    (commits_revoked p) (payout_rawtxs p).

Definition set_commits_active (l : list Commit) (p : Payee) : Payee :=
  mkPayee (payer_wif p) (payee_wif p) (spend_secret p) (deposit_rawtx p)
    (deposit_script_hex p) (commits_requested p) l
    (commits_revoked p) (payout_rawtxs p).

Definition set_commits_revoked (l : list Commit) (p : Payee) : Payee :=
  mkPayee (payer_wif p) (payee_wif p) (spend_secret p) (deposit_rawtx p)
    (deposit_script_hex p) (commits_requested p) (commits_active p)
    l (payout_rawtxs p).

(** A Python value handed to a parameter that expects a number. *)
Inductive PyVal :=
| PyInt (z : Z)
| PyStr (s : string)
| PyNone.

(** ** Exceptions and the method monad *)

Inductive Error :=
| ValueError (msg : string)      (* raise ValueError(msg) *)
| AssertionError                 (* a failed assert *)
| TypeError                      (* None where a str is needed *)
| BinasciiError                  (* util.h2b on a string that is no hex *)
| TxParseError                   (* pycoin.tx.Tx.from_hex on a malformed tx *)
| InvalidUnsigned (v : PyVal).   (* validate.unsigned *)

Inductive Outcome (A : Type) :=
| Ret (a : A)
| Raise (e : Error).
Arguments Ret {A} a.
Arguments Raise {A} e.

Definition M (A : Type) : Type := Payee -> Outcome A * Payee.

Definition ret {A} (a : A) : M A := fun p => (Ret a, p).
Definition raise {A} (e : Error) : M A := fun p => (Raise e, p).
Definition bind {A B} (c : M A) (k : A -> M B) : M B :=
  fun p => match c p with
           | (Ret a, p') => k a p'
           | (Raise e, p') => (Raise e, p')
           end.
Definition get : M Payee := fun p => (Ret p, p).
Definition modify (f : Payee -> Payee) : M unit := fun p => (Ret tt, f p).

Declare Scope py_scope.
Delimit Scope py_scope with py.
Notation "x <- c ;; k" := (bind c (fun x => k))
  (at level 61, c at next level, right associativity) : py_scope.
Notation "c ;; k" := (bind c (fun _ => k))
  (at level 61, right associativity) : py_scope.
Local Open Scope py_scope.

(** [assert(b)] *)
Definition assert (b : bool) : M unit :=
  if b then ret tt else raise AssertionError.

(** Passing an attribute that may be [None] where a [str] is required. *)
Definition need_str (o : option string) : M string :=
  match o with
  | Some s => ret s
  | None => raise TypeError
  end.

Definition is_none {A} (o : option A) : bool :=
  match o with None => true | Some _ => false end.

(** ** Collaborators *)

(** [picopayments.util]: the hash and the key and address derivations. *)
Class Util := {
  hash160 : list byte -> list byte;
  wif2pubkey : string -> string;
  script2address : list byte -> string -> string;
  gettxid : string -> string
}.

(** [picopayments.scripts]: what a locking script embeds. *)
Class Scripts := {
  get_deposit_spend_secret_hash : list byte -> string;
  get_deposit_payee_pubkey : list byte -> string;
  get_commit_spend_secret_hash : list byte -> string;
  get_commit_payee_pubkey : list byte -> string;
  get_commit_revoke_secret_hash : list byte -> string;
  get_commit_delay_time : list byte -> Z
}.

Record Utxo := mkUtxo { txid : string }.

(** [self.control] with its [btctxstore], and [pycoin]'s transaction
    parser.  [bad_signature_count] is [None] when [Tx.from_hex] raises. *)
Class Control := {
  netcode : string;
  get_quantity : string -> Z;
  bad_signature_count : string -> option Z;
  can_spend_from_address : string -> bool;
  retrieve_utxos : list string -> list Utxo;
  confirms : string -> Z;
  is_spent : Commit -> bool
}.

(** [picopayments.validate]: [unsigned v] is the exception that
    [validate.unsigned(v)] raises, [None] when it returns.  A function of
    that module has no access to the channel. *)
Class Validate := {
  unsigned : PyVal -> option Error
}.

(** ** The channel operations *)

Section Model.

Context `{Util} `{Scripts} `{Control} `{Validate}.

(** [util.h2b(h)] inside a method. *)
Definition py_h2b (h : string) : M (list byte) :=
  match h2b h with
  | Some b => ret b
  | None => raise BinasciiError
  end.

(** [util.hash160hex(hexdata)]: the hash of the bytes a hex string
    denotes, as a hex string. *)
Definition hash160hex (hexdata : string) : option string :=
  match h2b hexdata with
  | Some b => Some (b2h (hash160 b))
  | None => None
  end.

Definition py_hash160hex (hexdata : string) : M string :=
  match hash160hex hexdata with
  | Some h => ret h
  | None => raise BinasciiError
  end.

Definition quantity_of (c : Commit) : Z := get_quantity (rawtx c).

(** [commits_active] "ordered ascending by quantity". *)
Definition by_quantity (c d : Commit) : Prop := quantity_of c <= quantity_of d.
Definition ascending (l : list Commit) : Prop := Sorted by_quantity l.

(** *** Inherited from [Base] *)

Definition empty_channel : Payee :=
  mkPayee None None None None None [] [] [] [].

(** Modelled from the spec: [Base.clear] is not part of the sources at
    hand.  It "resets the channel to its initial empty state". *)
Definition clear : M unit := modify (fun _ => empty_channel).

Fixpoint insert_commit (c : Commit) (l : list Commit) : list Commit :=
  match l with
  | [] => [c]
  | d :: rest =>
      if quantity_of c <=? quantity_of d then c :: d :: rest
      else d :: insert_commit c rest
  end.

Fixpoint sort_commits (l : list Commit) : list Commit :=
  match l with
  | [] => []
  | c :: rest => insert_commit c (sort_commits rest)
  end.

(** Modelled from the spec: [Base._order_active] is not part of the
    sources at hand.  It "re-sorts [commits_active] ascending by
    transferred quantity", "idempotent and stable for equal quantities";
    the quantity of a commit is what the adapter reads in its
    transaction. *)
Definition _order_active : M unit :=
  modify (fun p => set_commits_active (sort_commits (commits_active p)) p).

(** Modelled from the spec: [Base.get_transferred_amount] is not part of
    the sources at hand.  It is the "quantity of the highest (last) active
    commit, or zero if none": the quantity of the last element of
    [commits_active], which is the highest one whenever the list is
    ordered. *)
Definition get_transferred_amount : M Z :=
  p <- get ;;
  ret (last (map quantity_of (commits_active p)) 0).

(** Modelled from the spec: [Base._validate_transfer_quantity] is not
    part of the sources at hand.  It "validates quantity is non-negative
    and does not regress below previously transferred amounts". *)
Definition _validate_transfer_quantity (quantity : Z) : M unit :=
  transferred <- get_transferred_amount ;;
  if (0 <=? quantity) && (transferred <=? quantity) then ret tt
  else raise (ValueError "Invalid transfer quantity").

(** The first active commit that carries [secret], and the others. *)
Fixpoint take_commit (secret : string) (l : list Commit)
  : option (Commit * list Commit) :=
  match l with
  | [] => None
  | c :: rest =>
      if String.eqb (revoke_secret c) secret then Some (c, rest)
      else match take_commit secret rest with
           | Some (d, rest') => Some (d, c :: rest')
           | None => None
           end
  end.

(** Modelled from the spec: [Base.revoke] is not part of the sources at
    hand.  A disclosed revoke secret's commit "moves from active to
    revoked"; a secret that no active commit carries moves nothing. *)
Definition revoke (secret : string) : M unit :=
  modify (fun p =>
    match take_commit secret (commits_active p) with
    | Some (c, rest) =>
        set_commits_revoked (commits_revoked p ++ [c])
          (set_commits_active rest p)
    | None => p
    end).

(** Modelled from the spec: [Base.revoke_all] is not part of the sources
    at hand.  It revokes the given secrets one after the other. *)
Fixpoint revoke_all (secrets : list string) : M unit :=
  match secrets with
  | [] => ret tt
  | s :: rest => revoke s ;; revoke_all rest
  end.

(** Modelled from the spec: [Base._commit_spent] is not part of the
    sources at hand.  It "asks the Blockchain Adapter whether the commit's
    output has already been spent on-chain". *)
Definition _commit_spent (c : Commit) : bool := is_spent c.

(** Modelled from the spec: [Base._all_confirmed] is not part of the
    sources at hand.  It is "true iff every listed transaction has at
    least [min_confirms] confirmations (per Blockchain Adapter)". *)
Definition _all_confirmed (rawtxs : list string) (minconfirms : PyVal)
  : M bool :=
  match minconfirms with
  | PyInt n => ret (forallb (fun r => n <=? confirms (gettxid r)) rawtxs)
  | _ => raise TypeError
  end.

(** [validate.unsigned(v)] inside a method. *)
Definition validate_unsigned (v : PyVal) : M unit :=
  match unsigned v with
  | Some e => raise e
  | None => ret tt
  end.

(** *** [Payee] *)

(** def setup(self, payee_wif); [secret] is what [os.urandom(32)] drew. *)
Definition setup (wif : string) (secret : list byte) : M (string * string) :=
  clear ;;
  modify (set_payee_wif (Some wif)) ;;
  p <- get ;;
  w <- need_str (payee_wif p) ;;
  let payee_pubkey := wif2pubkey w in
  modify (set_spend_secret (Some (b2h secret))) ;;
  let spend_secret_hash := b2h (hash160 secret) in
  ret (payee_pubkey, spend_secret_hash).

(** The channel [setup] leaves. *)
Definition fresh_channel (wif : string) (secret : list byte) : Payee :=
  mkPayee None (Some wif) (Some (b2h secret)) None None [] [] [] [].

(** [util.hash160hex(self.spend_secret)] *)
Definition own_spend_secret_hash : M string :=
  p <- get ;;
  s <- need_str (spend_secret p) ;;
  py_hash160hex s.

(** [util.wif2pubkey(self.payee_wif)] *)
Definition own_payee_pubkey : M string :=
  p <- get ;;
  w <- need_str (payee_wif p) ;;
  ret (wif2pubkey w).

Definition spend_secret_hash_msg (given own : string) : string :=
  ("Incorrect spend secret hash: " ++ given ++ " != " ++ own)%string.

Definition payee_pubkey_msg (given own : string) : string :=
  ("Incorrect payee pubkey: " ++ given ++ " != " ++ own)%string.

(** The error a deposit script that embeds [given_hash] and [given_key]
    meets in a channel whose own values are [own_hash] and [own_key]: the
    hash is compared first. *)
Definition deposit_mismatch (given_hash own_hash given_key own_key : string)
  : Error :=
  if String.eqb given_hash own_hash
  then ValueError (payee_pubkey_msg given_key own_key)
  else ValueError (spend_secret_hash_msg given_hash own_hash).

Definition _validate_deposit_spend_secret_hash (script : list byte) : M unit :=
  let given_spend_secret_hash := get_deposit_spend_secret_hash script in
  own <- own_spend_secret_hash ;;
  if negb (String.eqb given_spend_secret_hash own)
  then raise (ValueError (spend_secret_hash_msg given_spend_secret_hash own))
  else ret tt.

Definition _validate_deposit_payee_pubkey (script : list byte) : M unit :=
  let given_payee_pubkey := get_deposit_payee_pubkey script in
  own <- own_payee_pubkey ;;
  if negb (String.eqb given_payee_pubkey own)
  then raise (ValueError (payee_pubkey_msg given_payee_pubkey own))
  else ret tt.

Definition _assert_unopen_state : M unit :=
  p <- get ;;
  assert (is_none (payer_wif p)) ;;
  assert (negb (is_none (payee_wif p))) ;;
  assert (negb (is_none (spend_secret p))) ;;
  assert (is_none (deposit_rawtx p)) ;;
  assert (is_none (deposit_script_hex p)) ;;
  assert (Nat.eqb (List.length (commits_active p)) 0) ;;
  assert (Nat.eqb (List.length (commits_revoked p)) 0).

(** [tx = pycoin.tx.Tx.from_hex(rawtx); assert(tx.bad_signature_count() == 1)] *)
Definition assert_one_bad_signature (tx : string) : M unit :=
  match bad_signature_count tx with
  | Some n => assert (n =? 1)
  | None => raise TxParseError
  end.

Definition _validate_payer_deposit (tx script_hex : string) : M unit :=
  assert_one_bad_signature tx.

Definition _validate_payer_commit (tx script_hex : string) : M unit :=
  assert_one_bad_signature tx.

Definition set_deposit (tx script_hex : string) : M unit :=
  _assert_unopen_state ;;
  _validate_payer_deposit tx script_hex ;;
  script <- py_h2b script_hex ;;
  _validate_deposit_spend_secret_hash script ;;
  _validate_deposit_payee_pubkey script ;;
  modify (set_deposit_rawtx (Some tx)) ;;
  modify (set_deposit_script_hex (Some script_hex)).

(** def request_commit(self, quantity); [entropy] is what
    [os.urandom(32)] drew. *)
Definition request_commit (quantity : Z) (entropy : list byte)
  : M (Z * string) :=
  _validate_transfer_quantity quantity ;;
  let secret := b2h entropy in
  secret_hash <- py_hash160hex secret ;;
  modify (fun p => set_commits_requested (commits_requested p ++ [secret]) p) ;;
  ret (quantity, secret_hash).

Definition _validate_commit_secret_hash (script : list byte) : M unit :=
  let given_spend_secret_hash := get_commit_spend_secret_hash script in
  own <- own_spend_secret_hash ;;
  if negb (String.eqb given_spend_secret_hash own)
  then raise (ValueError (spend_secret_hash_msg given_spend_secret_hash own))
  else ret tt.

Definition _validate_commit_payee_pubkey (script : list byte) : M unit :=
  let given_payee_pubkey := get_commit_payee_pubkey script in
  own <- own_payee_pubkey ;;
  if negb (String.eqb given_payee_pubkey own)
  then raise (ValueError (payee_pubkey_msg given_payee_pubkey own))
  else ret tt.

(** [list.remove(x)]: drops the first element equal to [x]; [None]
    stands for the [ValueError] raised when there is none. *)
Fixpoint list_remove (x : string) (l : list string) : option (list string) :=
  match l with
  | [] => None
  | y :: rest =>
      if String.eqb y x then Some rest
      else match list_remove x rest with
           | Some rest' => Some (y :: rest')
           | None => None
           end
  end.

Definition commits_requested_remove (x : string) : M unit :=
  p <- get ;;
  match list_remove x (commits_requested p) with
  | Some l => modify (set_commits_requested l)
  | None => raise (ValueError "list.remove(x): x not in list")
  end.

Definition commits_active_append (c : Commit) : M unit :=
  modify (fun p => set_commits_active (commits_active p ++ [c]) p).

(** The loop of [set_commit] over the copy [self.commits_requested[:]]. *)
Fixpoint set_commit_loop (tx script_hex revoke_secret_hash : string)
    (requested : list string) : M (option Z) :=
  match requested with
  | [] => ret None
  | secret :: rest =>
      h <- py_hash160hex secret ;;
      if String.eqb revoke_secret_hash h then
        commits_requested_remove secret ;;
        _order_active ;;
        commits_active_append (mkCommit tx script_hex secret) ;;
        amount <- get_transferred_amount ;;
        ret (Some amount)
      else set_commit_loop tx script_hex revoke_secret_hash rest
  end.

Definition set_commit (tx script_hex : string) : M (option Z) :=
  _validate_payer_commit tx script_hex ;;
  script <- py_h2b script_hex ;;
  _validate_commit_secret_hash script ;;
  _validate_commit_payee_pubkey script ;;
  let revoke_secret_hash := get_commit_revoke_secret_hash script in
  p <- get ;;
  set_commit_loop tx script_hex revoke_secret_hash (commits_requested p).

(** A commit passes the three validations that [set_commit] makes before
    it looks at the revoke-secret hash. *)
Definition passes_commit_validation (tx : string) (scr : list byte)
    (p : Payee) : Prop :=
  bad_signature_count tx = Some 1
  /\ (exists s, spend_secret p = Some s
                /\ hash160hex s = Some (get_commit_spend_secret_hash scr))
  /\ (exists w, payee_wif p = Some w
                /\ get_commit_payee_pubkey scr = wif2pubkey w).

(** No secret of [requested] hashes to [revoke_secret_hash]. *)
Definition no_request_matches (revoke_secret_hash : string)
    (requested : list string) : Prop :=
  Forall (fun secret => exists h, hash160hex secret = Some h
                                  /\ h <> revoke_secret_hash) requested.

(** The channel after [set_commit] accepted [tx] for the request
    [secret], when [requested] is what remains of the requests. *)
Definition accepted (tx script_hex secret : string)
    (requested : list string) (p : Payee) : Payee :=
  set_commits_active
    (sort_commits (commits_active p) ++ [mkCommit tx script_hex secret])
    (set_commits_requested requested p).

(** [request_commit(q1); ...; request_commit(qn)], each with the bytes
    its [os.urandom(32)] drew. *)
Fixpoint request_commits (requests : list (Z * list byte))
  : M (list (Z * string)) :=
  match requests with
  | [] => ret []
  | (quantity, entropy) :: rest =>
      r <- request_commit quantity entropy ;;
      rs <- request_commits rest ;;
      ret (r :: rs)
  end.

(** [set_commit(tx1, script1); ...; set_commit(txn, scriptn)] *)
Fixpoint set_commits (commits : list (string * string))
  : M (list (option Z)) :=
  match commits with
  | [] => ret []
  | (tx, script_hex) :: rest =>
      r <- set_commit tx script_hex ;;
      rs <- set_commits rest ;;
      ret (r :: rs)
  end.

(** The quantity that the transaction of a commit transfers. *)
Definition tx_quantity (commit : string * string) : Z :=
  get_quantity (fst commit).

(** The commit [(tx, script_hex)] passes the validations of [set_commit]
    and its script embeds the revoke-secret hash [revoke_secret_hash]. *)
Definition commit_embeds (p : Payee) (commit : string * string)
    (revoke_secret_hash : string) : Prop :=
  exists scr,
    h2b (snd commit) = Some scr
    /\ passes_commit_validation (fst commit) scr p
    /\ get_commit_revoke_secret_hash scr = revoke_secret_hash.

(** The commit answers the request: it transfers the requested quantity
    and embeds the hash that [request_commit] returned. *)
Definition matching_commit (p : Payee) (request : Z * list byte)
    (commit : string * string) : Prop :=
  tx_quantity commit = fst request
  /\ commit_embeds p commit (b2h (hash160 (snd request))).

(** The loop of [revoke_until] over [reversed(self.commits_active[:])],
    with its [break]. *)
Fixpoint revoke_scan (quantity : Z) (reversed : list Commit) : list string :=
  match reversed with
  | [] => []
  | commit :: rest =>
      if quantity <? quantity_of commit
      then revoke_secret commit :: revoke_scan quantity rest
      else []
  end.

Definition revoke_until (quantity : Z) : M (list string) :=
  _order_active ;;
  p <- get ;;
  let secrets := revoke_scan quantity (rev (commits_active p)) in
  revoke_all secrets ;;
  ret secrets.

(** The inner loop of [get_payout_recoverable] over the UTXOs of one
    commit address. *)
Fixpoint utxo_loop (script : list byte) (delay_time : Z) (utxos : list Utxo)
    (scripts : list (list byte)) : list (list byte) :=
  match utxos with
  | [] => scripts
  | utxo :: rest =>
      let confirmations := confirms (txid utxo) in
      if confirmations >=? delay_time
      then utxo_loop script delay_time rest (scripts ++ [script])
      else utxo_loop script delay_time rest scripts
  end.

(** The outer loop, over [self.commits_active + self.commits_revoked]. *)
Fixpoint recoverable_loop (commits : list Commit)
    (scripts : list (list byte)) : M (list (list byte)) :=
  match commits with
  | [] => ret scripts
  | commit :: rest =>
      script <- py_h2b (script commit) ;;
      let delay_time := get_commit_delay_time script in
      let address := script2address script netcode in
      if _commit_spent commit then recoverable_loop rest scripts
      else if can_spend_from_address address then
        let utxos := retrieve_utxos [address] in
        recoverable_loop rest (utxo_loop script delay_time utxos scripts)
      else recoverable_loop rest scripts
  end.

Definition get_payout_recoverable : M (list (list byte)) :=
  p <- get ;;
  recoverable_loop (commits_active p ++ commits_revoked p) [].

(** What makes the script [s] of the commit [c] one to collect: the
    commit is not reported spent, its address is reported spendable, and
    some UTXO at that address is at least as deep as the delay the script
    embeds. *)
Definition sweepable (c : Commit) (s : list byte) : Prop :=
  h2b (script c) = Some s
  /\ _commit_spent c = false
  /\ can_spend_from_address (script2address s netcode) = true
  /\ exists utxo,
       In utxo (retrieve_utxos [script2address s netcode])
       /\ get_commit_delay_time s <= confirms (txid utxo).

(** def payout_confirmed(self, minconfirms=1) *)
Definition payout_confirmed (minconfirms : PyVal) : M bool :=
  validate_unsigned minconfirms ;;
  p <- get ;;
  _all_confirmed (payout_rawtxs p) minconfirms.

End Model.

(** ** A small concrete world

    Collaborators simple enough to compute with: the hash appends a byte,
    a script is six bytes (two of spend-secret hash, one of payee key, two
    of revoke-secret hash, one of delay), the quantity of a transaction is
    its length. *)

Module Example.

Definition util : Util := {|
  hash160 := fun b => b ++ [xff];
  wif2pubkey := fun w => w;
  script2address := fun s net => (net ++ b2h s)%string;
  gettxid := fun r => r
|}.

Definition field (from len : nat) (s : list byte) : list byte :=
  firstn len (skipn from s).

Definition scripts : Scripts := {|
  get_deposit_spend_secret_hash := fun s => b2h (field 0 2 s);
  get_deposit_payee_pubkey := fun s => b2h (field 2 1 s);
  get_commit_spend_secret_hash := fun s => b2h (field 0 2 s);
  get_commit_payee_pubkey := fun s => b2h (field 2 1 s);
  get_commit_revoke_secret_hash := fun s => b2h (field 3 2 s);
  get_commit_delay_time := fun s =>
    match field 5 1 s with
    | [d] => Z.of_N (Byte.to_N d)
    | _ => 0
    end
|}.

Definition control : Control := {|
  netcode := "XTN";
  get_quantity := fun r => Z.of_nat (String.length r);
  bad_signature_count := fun r =>
    match r with
    | EmptyString => None
    | String "!"%char _ => Some 0
    | _ => Some 1
    end;
  can_spend_from_address := fun a => negb (String.eqb a "XTN");
  retrieve_utxos := fun addrs => map mkUtxo addrs;
  confirms := fun t => Z.of_nat (String.length t);
  is_spent := fun c => String.eqb (rawtx c) "spent"
|}.

(** The channel right after [setup "02" [x01]]. *)
Definition unopened : Payee :=
  mkPayee None (Some "02") (Some "01") None None [] [] [] [].

(** A matching deposit script and one that embeds another hash. *)
Definition deposit_script : string := "01ff02000000".
Definition foreign_script : string := "07ff02000000".

Definition commit1 : Commit := mkCommit "tx" "01ff020aff03" "0a".
Definition commit2 : Commit := mkCommit "txtxt" "01ff020bff03" "0b".

(** An open channel with two accepted commits and one pending request. *)
Definition opened : Payee :=
  mkPayee None (Some "02") (Some "01") (Some "deposit") (Some deposit_script)
    ["0c"] [commit1; commit2] [] [].

End Example.

(** ** Closing the channel and recovering payouts *)

(** The calls of [self.control] that build transactions.  The key and the
    spend secret are handed over as the attributes hold them, [None]
    included; the calls are taken to return a transaction. *)
Class Builder := {
  finalize_commit : option string -> string -> list byte -> string;
  control_payout_recover : option string -> list byte -> option string -> string
}.

Definition set_payout_rawtxs (l : list string) (p : Payee) : Payee :=
  mkPayee (payer_wif p) (payee_wif p) (spend_secret p) (deposit_rawtx p)
    (deposit_script_hex p) (commits_requested p) (commits_active p)
    (commits_revoked p) l.

(** [commit["rawtx"] = tx] *)
Definition set_rawtx (tx : string) (c : Commit) : Commit :=
  mkCommit tx (script c) (revoke_secret c).

Section Closing.

Context `{Util} `{Scripts} `{Control} `{Validate} `{Builder}.

(** [util.h2b(self.deposit_script_hex)] *)
Definition own_deposit_script : M (list byte) :=
  p <- get ;;
  h <- need_str (deposit_script_hex p) ;;
  py_h2b h.

(** def close_channel(self).  [self.commits_active[-1]] is the head of the
    reversed list; the arguments of [finalize_commit] are evaluated before
    the call, so a deposit script that does not decode raises after the
    commits were ordered.  The last branch is not reached: the list was
    asserted non-empty and ordering keeps its length. *)
Definition close_channel : M string :=
  p0 <- get ;;
  assert (Nat.ltb 0 (List.length (commits_active p0))) ;;
  _order_active ;;
  p <- get ;;
  match rev (commits_active p) with
  | commit :: front =>
      deposit_script <- own_deposit_script ;;
      let tx := finalize_commit (payee_wif p) (rawtx commit) deposit_script in
      modify (set_commits_active (rev front ++ [set_rawtx tx commit])) ;;
      ret (gettxid tx)
  | [] => raise AssertionError
  end.

(** def payout_recover(self, scripts) *)
Fixpoint payout_recover (scripts : list (list byte)) : M unit :=
  match scripts with
  | [] => ret tt
  | script :: rest =>
      p <- get ;;
      let tx := control_payout_recover (payee_wif p) script (spend_secret p) in
      modify (fun p => set_payout_rawtxs (payout_rawtxs p ++ [tx]) p) ;;
      payout_recover rest
  end.

(** def update(self) *)
Definition update : M unit :=
  scripts <- get_payout_recoverable ;;
  if Nat.ltb 0 (List.length scripts) then payout_recover scripts else ret tt.

(** The channel [set_deposit] leaves when it accepts. *)
Definition deposited (tx script_hex : string) (p : Payee) : Payee :=
  set_deposit_script_hex (Some script_hex) (set_deposit_rawtx (Some tx) p).

(** What [set_deposit] checks before it stores a deposit. *)
Definition passes_deposit_validation (tx : string) (scr : list byte)
    (p : Payee) : Prop :=
  bad_signature_count tx = Some 1
  /\ (exists s, spend_secret p = Some s
                /\ hash160hex s = Some (get_deposit_spend_secret_hash scr))
  /\ (exists w, payee_wif p = Some w
                /\ get_deposit_payee_pubkey scr = wif2pubkey w).

(** What one commit contributes to [get_payout_recoverable]: its script,
    once for every UTXO that is deep enough. *)
Definition recoverable_of (c : Commit) : list (list byte) :=
  match h2b (script c) with
  | Some scr =>
      if _commit_spent c then []
      else if can_spend_from_address (script2address scr netcode) then
        map (fun _ => scr)
          (filter (fun utxo => confirms (txid utxo) >=? get_commit_delay_time scr)
             (retrieve_utxos [script2address scr netcode]))
      else []
  | None => []
  end.

(** The payouts [payout_recover] builds for a list of scripts. *)
Definition payouts_for (p : Payee) (scripts : list (list byte)) : list string :=
  map (fun s => control_payout_recover (payee_wif p) s (spend_secret p)) scripts.

(** *** Sessions: one call of a method after the other *)

Inductive Call :=
| CallSetup (wif : string) (secret : list byte)
| CallSetDeposit (tx script_hex : string)
| CallRequestCommit (quantity : Z) (entropy : list byte)
| CallSetCommit (tx script_hex : string)
| CallRevokeUntil (quantity : Z)
| CallCloseChannel
| CallUpdate
| CallGetPayoutRecoverable
| CallPayoutRecover (scripts : list (list byte))
| CallPayoutConfirmed (minconfirms : PyVal).

(** The channel a call leaves, whether it returned or raised. *)
Definition after (c : Call) (p : Payee) : Payee :=
  match c with
  | CallSetup wif secret => snd (setup wif secret p)
  | CallSetDeposit tx script_hex => snd (set_deposit tx script_hex p)
  | CallRequestCommit quantity entropy => snd (request_commit quantity entropy p)
  | CallSetCommit tx script_hex => snd (set_commit tx script_hex p)
  | CallRevokeUntil quantity => snd (revoke_until quantity p)
  | CallCloseChannel => snd (close_channel p)
  | CallUpdate => snd (update p)
  | CallGetPayoutRecoverable => snd (get_payout_recoverable p)
  | CallPayoutRecover scripts => snd (payout_recover scripts p)
  | CallPayoutConfirmed v => snd (payout_confirmed v p)
  end.

Fixpoint after_all (calls : list Call) (p : Payee) : Payee :=
  match calls with
  | [] => p
  | c :: rest => after_all rest (after c p)
  end.

Definition is_setup (c : Call) : bool :=
  match c with CallSetup _ _ => true | _ => false end.

(** Every script a commit keeps decodes, every pending secret has a hash. *)
Definition well_formed (p : Payee) : Prop :=
  Forall (fun c => h2b (script c) <> None)
    (commits_active p ++ commits_revoked p)
  /\ Forall (fun s => hash160hex s <> None) (commits_requested p).

(** All revoke secrets the channel holds: pending, active and revoked. *)
Definition all_secrets (p : Payee) : list string :=
  commits_requested p
  ++ map revoke_secret (commits_active p ++ commits_revoked p).

(** Every [request_commit] of the session draws a secret the channel does
    not hold yet. *)
Fixpoint fresh_entropy (calls : list Call) (p : Payee) : Prop :=
  match calls with
  | [] => True
  | c :: rest =>
      match c with
      | CallRequestCommit _ entropy => ~ In (b2h entropy) (all_secrets p)
      | _ => True
      end
      /\ fresh_entropy rest (after c p)
  end.

Definition no_setup (calls : list Call) : Prop :=
  Forall (fun c => is_setup c = false) calls.

(** How one call other than [setup] can change a channel: the keys and the
    spend secret stay; a deposit is only ever filled in; revoked commits stay
    and commits taken out of the active list join them; every commit kept
    has the script of a commit there was or a script that decodes; and the
    revoke secrets are the same ones, except that [request_commit] adds
    one. *)
Definition evolves (c : Call) (p p' : Payee) : Prop :=
  payer_wif p' = payer_wif p
  /\ payee_wif p' = payee_wif p
  /\ spend_secret p' = spend_secret p
  /\ (deposit_rawtx p' = deposit_rawtx p \/ deposit_rawtx p = None)
  /\ (deposit_script_hex p' = deposit_script_hex p
      \/ deposit_script_hex p = None)
  /\ exists moved,
       commits_revoked p' = commits_revoked p ++ moved
       /\ Forall (fun c' => (exists c0, In c0 (commits_active p)
                                        /\ script c' = script c0)
                            \/ h2b (script c') <> None)
            (commits_active p' ++ moved)
       /\ Forall (fun s => In s (commits_requested p) \/ hash160hex s <> None)
            (commits_requested p')
       /\ (Permutation
             (commits_requested p' ++ map revoke_secret (commits_active p' ++ moved))
             (commits_requested p ++ map revoke_secret (commits_active p))
           \/ exists q e,
                c = CallRequestCommit q e
                /\ commits_requested p' = commits_requested p ++ [b2h e]
                /\ commits_active p' = commits_active p
                /\ moved = []).

End Closing.

Module ExampleBuilder.

Definition builder : Builder := {|
  finalize_commit := fun wif tx deposit_script => (tx ++ "+" ++ b2h deposit_script)%string;
  control_payout_recover := fun wif scr secret => ("payout:" ++ b2h scr)%string
|}.

(** A validator that lets the non-negative integers through. *)
Definition validate : Validate := {|
  unsigned := fun v =>
    match v with
    | PyInt n => if 0 <=? n then None else Some (InvalidUnsigned v)
    | _ => Some (InvalidUnsigned v)
    end
|}.

(** Two active commits of the same quantity, nothing requested. *)
Definition tied : Payee :=
  mkPayee None (Some "02") (Some "01") (Some "deposit")
    (Some Example.deposit_script) []
    [mkCommit "ab" "01ff020aff03" "0a"; mkCommit "cd" "01ff020bff03" "0b"]
    [] [].

End ExampleBuilder.

(** * Properties *)

(** ** Hex coding round trip *)

Lemma byte_of_digits_hex (x : byte) :
  byte_of_digits (hex_digit (byte_hi x)) (hex_digit (byte_lo x)) = Some x.
Proof. destruct x; reflexivity. Qed.

Lemma h2b_b2h (b : list byte) : h2b (b2h b) = Some b.
Proof.
  induction b as [|x rest IH]; [reflexivity|].
  cbn [b2h h2b]. now rewrite byte_of_digits_hex, IH.
Qed.

(** ** Running a method *)

Lemma bind_ret {A B} (c : M A) (k : A -> M B) p a p' :
  c p = (Ret a, p') -> bind c k p = k a p'.
Proof. unfold bind. now intros ->. Qed.

Lemma bind_raise {A B} (c : M A) (k : A -> M B) p e p' :
  c p = (Raise e, p') -> bind c k p = (Raise e, p').
Proof. unfold bind. now intros ->. Qed.

(** A step that leaves the channel as it is. *)
Lemma bind_keeps {A B} (c : M A) (k : A -> M B) p :
  snd (c p) = p ->
  bind c k p = match fst (c p) with
               | Ret a => k a p
               | Raise e => (Raise e, p)
               end.
Proof.
  unfold bind. destruct (c p) as [[a|e] p1]; cbn; now intros ->.
Qed.

Lemma last_nonempty_in {A} (l : list A) (d : A) :
  l <> [] -> In (last l d) l.
Proof.
  induction l as [|x [|y l'] IH]; intros Hne;
    [contradiction | now left | right; apply IH; discriminate].
Qed.

Lemma last_map_nonempty {A B} (f : A -> B) (l : list A) (d : A) (e : B) :
  l <> [] -> last (map f l) e = f (last l d).
Proof.
  induction l as [|x [|y l'] IH]; intros Hne; [contradiction|reflexivity|].
  change (last (map f (x :: y :: l')) e) with (last (map f (y :: l')) e).
  change (last (x :: y :: l') d) with (last (y :: l') d).
  apply IH. discriminate.
Qed.

Section Facts.

Context `{Util} `{Scripts} `{Control} `{Validate}.

Lemma hash160hex_b2h (b : list byte) :
  hash160hex (b2h b) = Some (b2h (hash160 b)).
Proof. unfold hash160hex. now rewrite h2b_b2h. Qed.

Lemma own_spend_secret_hash_run p s h :
  spend_secret p = Some s -> hash160hex s = Some h ->
  own_spend_secret_hash p = (Ret h, p).
Proof.
  intros Es Eh. unfold own_spend_secret_hash, bind, get.
  rewrite Es. cbn. unfold py_hash160hex. now rewrite Eh.
Qed.

Lemma own_payee_pubkey_run p w :
  payee_wif p = Some w -> own_payee_pubkey p = (Ret (wif2pubkey w), p).
Proof.
  intros Ew. unfold own_payee_pubkey, bind, get. now rewrite Ew.
Qed.

(** *** setup *)

Lemma setup_run wif secret p :
  setup wif secret p
  = (Ret (wif2pubkey wif, b2h (hash160 secret)), fresh_channel wif secret).
Proof. reflexivity. Qed.

(** C8: the spend secret that [setup] stores in the channel hashes to the
    spend-secret hash that [setup] returns next to the payee public key;
    it is the hash the deposit and commit validations later compare
    with. *)
Theorem setup_returns_hash_of_stored_secret wif secret p :
  exists pubkey spend_secret_hash stored p',
    setup wif secret p = (Ret (pubkey, spend_secret_hash), p')
    /\ pubkey = wif2pubkey wif
    /\ spend_secret p' = Some stored
    /\ hash160hex stored = Some spend_secret_hash
    /\ own_spend_secret_hash p' = (Ret spend_secret_hash, p').
Proof.
  exists (wif2pubkey wif), (b2h (hash160 secret)), (b2h secret),
    (fresh_channel wif secret).
  rewrite setup_run. repeat split.
  - apply hash160hex_b2h.
  - apply own_spend_secret_hash_run with (s := b2h secret);
      [reflexivity | apply hash160hex_b2h].
Qed.

(** C5, as the code has it: [setup] checks nothing about the channel it
    is called on.  On every channel it returns normally, and the channel it
    leaves satisfies the unopened-state assertions that [set_deposit]
    makes. *)
Theorem setup_resets_any_channel wif secret p :
  exists result p',
    setup wif secret p = (Ret result, p')
    /\ p' = fresh_channel wif secret
    /\ _assert_unopen_state p' = (Ret tt, p').
Proof.
  exists (wif2pubkey wif, b2h (hash160 secret)), (fresh_channel wif secret).
  rewrite setup_run. repeat split.
Qed.

(** *** set_deposit *)

Lemma assert_unopen_state_inv p u p' :
  _assert_unopen_state p = (Ret u, p') ->
  p' = p /\ payer_wif p = None /\ payee_wif p <> None
  /\ spend_secret p <> None /\ deposit_rawtx p = None
  /\ deposit_script_hex p = None
  /\ commits_active p = [] /\ commits_revoked p = [].
Proof.
  unfold _assert_unopen_state, bind, get.
  destruct p as [a b c d e f g h i]; cbn.
  destruct a, b, c, d, e, g, h; cbn; try discriminate.
  intros [= <-]. repeat split; congruence.
Qed.

Lemma validate_deposit_spend_secret_hash_run scr p secret own :
  spend_secret p = Some secret -> hash160hex secret = Some own ->
  _validate_deposit_spend_secret_hash scr p
  = (if String.eqb (get_deposit_spend_secret_hash scr) own then Ret tt
     else Raise (ValueError
            (spend_secret_hash_msg (get_deposit_spend_secret_hash scr) own)),
     p).
Proof.
  intros Es Eh. unfold _validate_deposit_spend_secret_hash.
  erewrite bind_ret by (eapply own_spend_secret_hash_run; eassumption).
  now destruct (String.eqb _ own).
Qed.

Lemma validate_deposit_payee_pubkey_run scr p wif :
  payee_wif p = Some wif ->
  _validate_deposit_payee_pubkey scr p
  = (if String.eqb (get_deposit_payee_pubkey scr) (wif2pubkey wif) then Ret tt
     else Raise (ValueError
            (payee_pubkey_msg (get_deposit_payee_pubkey scr) (wif2pubkey wif))),
     p).
Proof.
  intros Ew. unfold _validate_deposit_payee_pubkey.
  erewrite bind_ret by (eapply own_payee_pubkey_run; eassumption).
  now destruct (String.eqb _ (wif2pubkey wif)).
Qed.

Lemma py_h2b_run h b p : h2b h = Some b -> py_h2b h p = (Ret b, p).
Proof. unfold py_h2b. now intros ->. Qed.

(** C4: on an unopened channel, a deposit whose script embeds a
    spend-secret hash other than the hash of the channel's spend secret,
    or a payee public key other than the payee's own, is refused and the
    deposit stays unset whatever the transaction is; for a transaction of
    the required signature shape the refusal is the [ValueError] whose
    message names the given and the expected value. *)
Theorem set_deposit_rejects_foreign_script
    tx script_hex scr p secret own_hash wif :
  _assert_unopen_state p = (Ret tt, p) ->
  spend_secret p = Some secret -> hash160hex secret = Some own_hash ->
  payee_wif p = Some wif ->
  h2b script_hex = Some scr ->
  get_deposit_spend_secret_hash scr <> own_hash
  \/ get_deposit_payee_pubkey scr <> wif2pubkey wif ->
  (exists e p', set_deposit tx script_hex p = (Raise e, p')
     /\ p' = p /\ deposit_rawtx p' = None /\ deposit_script_hex p' = None)
  /\ (bad_signature_count tx = Some 1 ->
      set_deposit tx script_hex p
      = (Raise (deposit_mismatch (get_deposit_spend_secret_hash scr) own_hash
                  (get_deposit_payee_pubkey scr) (wif2pubkey wif)), p)).
Proof.
  intros Hun Es Eh Ew Escr Hbad.
  destruct (assert_unopen_state_inv _ _ _ Hun)
    as (_ & _ & _ & _ & Hraw & Hhex & _).
  assert (Hshape : bad_signature_count tx = Some 1 ->
      set_deposit tx script_hex p
      = (Raise (deposit_mismatch (get_deposit_spend_secret_hash scr) own_hash
                  (get_deposit_payee_pubkey scr) (wif2pubkey wif)), p)).
  { intros Etx. unfold set_deposit.
    rewrite (bind_ret _ _ _ _ _ Hun).
    unfold _validate_payer_deposit, assert_one_bad_signature at 1.
    rewrite Etx. cbn [Z.eqb Pos.eqb]. rewrite (bind_ret _ _ _ tt p eq_refl).
    rewrite (bind_ret _ _ _ _ _ (py_h2b_run _ _ p Escr)).
    unfold deposit_mismatch.
    destruct (String.eqb_spec (get_deposit_spend_secret_hash scr) own_hash)
      as [Eq|Ne].
    - erewrite bind_ret
        by (erewrite validate_deposit_spend_secret_hash_run by eassumption;
            rewrite Eq, String.eqb_refl; reflexivity).
      destruct Hbad as [Hbad|Hbad]; [contradiction|].
      erewrite bind_raise; [reflexivity|].
      erewrite validate_deposit_payee_pubkey_run by eassumption.
      apply String.eqb_neq in Hbad. now rewrite Hbad.
    - erewrite bind_raise; [reflexivity|].
      erewrite validate_deposit_spend_secret_hash_run by eassumption.
      apply String.eqb_neq in Ne. now rewrite Ne. }
  split; [|exact Hshape].
  destruct (bad_signature_count tx) as [n|] eqn:Etx.
  - destruct (Z.eqb_spec n 1) as [->|Hn].
    + eexists _, p. split; [apply Hshape; reflexivity|auto].
    + exists AssertionError, p. split; [|auto].
      unfold set_deposit. rewrite (bind_ret _ _ _ _ _ Hun).
      erewrite bind_raise; [reflexivity|].
      unfold _validate_payer_deposit, assert_one_bad_signature.
      rewrite Etx. apply Z.eqb_neq in Hn. now rewrite Hn.
  - exists TxParseError, p. split; [|auto].
    unfold set_deposit. rewrite (bind_ret _ _ _ _ _ Hun).
    erewrite bind_raise; [reflexivity|].
    unfold _validate_payer_deposit, assert_one_bad_signature.
    now rewrite Etx.
Qed.

(** *** Ordering the active commits *)

Lemma insert_commit_perm c l : Permutation (insert_commit c l) (c :: l).
Proof.
  induction l as [|d rest IH]; cbn; [reflexivity|].
  destruct (quantity_of c <=? quantity_of d); [reflexivity|].
  rewrite IH. apply perm_swap.
Qed.

Lemma sort_commits_perm l : Permutation (sort_commits l) l.
Proof.
  induction l as [|c rest IH]; cbn; [reflexivity|].
  rewrite insert_commit_perm. now constructor.
Qed.

Lemma insert_commit_sorted c l :
  StronglySorted by_quantity l -> StronglySorted by_quantity (insert_commit c l).
Proof.
  induction 1 as [|d rest Hs IH Hd]; cbn.
  - repeat constructor.
  - destruct (Z.leb_spec (quantity_of c) (quantity_of d)) as [Hle|Hgt].
    + constructor; [now constructor|].
      constructor; [exact Hle|].
      eapply Forall_impl; [|exact Hd]. unfold by_quantity. intros; lia.
    + constructor; [exact IH|].
      eapply Permutation_Forall; [symmetry; apply insert_commit_perm|].
      constructor; [unfold by_quantity; lia | exact Hd].
Qed.

Lemma sort_commits_sorted l : StronglySorted by_quantity (sort_commits l).
Proof.
  induction l; cbn; [constructor | now apply insert_commit_sorted].
Qed.

Lemma by_quantity_trans : Relations_1.Transitive by_quantity.
Proof. unfold by_quantity. intros a b c; lia. Qed.

Lemma ascending_strongly l : ascending l <-> StronglySorted by_quantity l.
Proof.
  split.
  - apply Sorted_StronglySorted, by_quantity_trans.
  - apply StronglySorted_Sorted.
Qed.

Lemma sort_commits_ascending l : ascending (sort_commits l).
Proof. apply ascending_strongly, sort_commits_sorted. Qed.

(** Ordering an ordered list changes nothing: [_order_active] is
    idempotent. *)
Lemma sort_commits_fixed l :
  StronglySorted by_quantity l -> sort_commits l = l.
Proof.
  induction 1 as [|c rest Hs IH Hc]; cbn; [reflexivity|].
  rewrite IH. destruct rest as [|d rest']; cbn; [reflexivity|].
  apply Forall_inv in Hc. unfold by_quantity in Hc.
  apply Z.leb_le in Hc. now rewrite Hc.
Qed.

Lemma sort_commits_idempotent l :
  sort_commits (sort_commits l) = sort_commits l.
Proof. apply sort_commits_fixed, sort_commits_sorted. Qed.

(** Commits of one quantity keep their order: [_order_active] is stable. *)
Lemma insert_commit_stable q c l :
  filter (fun d => quantity_of d =? q) (insert_commit c l)
  = filter (fun d => quantity_of d =? q) (c :: l).
Proof.
  induction l as [|d rest IH]; [reflexivity|].
  cbn [insert_commit].
  destruct (Z.leb_spec (quantity_of c) (quantity_of d)) as [Hle|Hgt];
    [reflexivity|].
  cbn [filter] in *. rewrite IH.
  destruct (Z.eqb_spec (quantity_of c) q), (Z.eqb_spec (quantity_of d) q);
    try reflexivity; lia.
Qed.

Lemma sort_commits_stable q l :
  filter (fun d => quantity_of d =? q) (sort_commits l)
  = filter (fun d => quantity_of d =? q) l.
Proof.
  induction l as [|c rest IH]; [reflexivity|].
  cbn [sort_commits]. rewrite insert_commit_stable. cbn [filter].
  now rewrite IH.
Qed.

Lemma strongly_sorted_snoc l c :
  StronglySorted by_quantity (l ++ [c]) ->
  Forall (fun d => quantity_of d <= quantity_of c) l.
Proof.
  induction l as [|d rest IH]; cbn; intros Hs; [constructor|].
  inversion Hs as [|? ? Hrest Hd]; subst.
  constructor; [|now apply IH].
  rewrite Forall_app in Hd. destruct Hd as [_ Hd].
  now apply Forall_inv in Hd.
Qed.

Lemma strongly_sorted_snoc_intro l c :
  StronglySorted by_quantity l ->
  Forall (fun d => quantity_of d <= quantity_of c) l ->
  StronglySorted by_quantity (l ++ [c]).
Proof.
  induction 1 as [|d rest Hs IH Hd]; cbn; intros Hall.
  - repeat constructor.
  - inversion Hall; subst. constructor; [now apply IH|].
    rewrite Forall_app. split; [exact Hd|]. now repeat constructor.
Qed.

Lemma last_snoc {A} (l : list A) (x d : A) : last (l ++ [x]) d = x.
Proof. apply last_last. Qed.

(** *** set_commit *)

Lemma assert_one_bad_signature_run tx p :
  assert_one_bad_signature tx p
  = (match bad_signature_count tx with
     | Some n => if n =? 1 then Ret tt else Raise AssertionError
     | None => Raise TxParseError
     end, p).
Proof.
  unfold assert_one_bad_signature.
  destruct (bad_signature_count tx) as [n|]; [|reflexivity].
  now destruct (n =? 1).
Qed.

Lemma own_spend_secret_hash_keeps p : snd (own_spend_secret_hash p) = p.
Proof.
  unfold own_spend_secret_hash, bind, get.
  destruct (spend_secret p) as [s|]; cbn; [|reflexivity].
  unfold py_hash160hex. now destruct (hash160hex s).
Qed.

Lemma own_payee_pubkey_keeps p : snd (own_payee_pubkey p) = p.
Proof.
  unfold own_payee_pubkey, bind, get. now destruct (payee_wif p).
Qed.

Lemma validate_commit_secret_hash_keeps scr p :
  snd (_validate_commit_secret_hash scr p) = p.
Proof.
  unfold _validate_commit_secret_hash, bind.
  pose proof (own_spend_secret_hash_keeps p) as K.
  destruct (own_spend_secret_hash p) as [[own|e] p1]; cbn in *; subst;
    [|reflexivity].
  now destruct (negb _).
Qed.

Lemma validate_commit_payee_pubkey_keeps scr p :
  snd (_validate_commit_payee_pubkey scr p) = p.
Proof.
  unfold _validate_commit_payee_pubkey, bind.
  pose proof (own_payee_pubkey_keeps p) as K.
  destruct (own_payee_pubkey p) as [[own|e] p1]; cbn in *; subst;
    [|reflexivity].
  now destruct (negb _).
Qed.

Lemma validate_commit_secret_hash_run scr p s :
  spend_secret p = Some s ->
  hash160hex s = Some (get_commit_spend_secret_hash scr) ->
  _validate_commit_secret_hash scr p = (Ret tt, p).
Proof.
  intros Es Eh. unfold _validate_commit_secret_hash.
  erewrite bind_ret by (eapply own_spend_secret_hash_run; eassumption).
  now rewrite String.eqb_refl.
Qed.

Lemma validate_commit_payee_pubkey_run scr p w :
  payee_wif p = Some w -> get_commit_payee_pubkey scr = wif2pubkey w ->
  _validate_commit_payee_pubkey scr p = (Ret tt, p).
Proof.
  intros Ew Ek. unfold _validate_commit_payee_pubkey.
  erewrite bind_ret by (eapply own_payee_pubkey_run; eassumption).
  now rewrite Ek, String.eqb_refl.
Qed.

(** Whatever the validations of [set_commit] decide, they leave the channel
    as it is; when they let the commit through, the loop over the requests
    runs on that channel. *)
Lemma set_commit_validations tx script_hex scr p :
  h2b script_hex = Some scr ->
  (exists e, set_commit tx script_hex p = (Raise e, p))
  \/ set_commit tx script_hex p
     = set_commit_loop tx script_hex (get_commit_revoke_secret_hash scr)
         (commits_requested p) p.
Proof.
  intros Escr. unfold set_commit, _validate_payer_commit.
  rewrite (bind_keeps (assert_one_bad_signature tx))
    by (rewrite assert_one_bad_signature_run; reflexivity).
  rewrite assert_one_bad_signature_run. cbn [fst].
  destruct (bad_signature_count tx) as [n|]; [|left; eauto].
  destruct (n =? 1); [|left; eauto].
  rewrite (bind_ret _ _ _ _ _ (py_h2b_run _ _ p Escr)).
  rewrite (bind_keeps (_validate_commit_secret_hash scr))
    by apply validate_commit_secret_hash_keeps.
  destruct (fst (_validate_commit_secret_hash scr p)) as [[]|e];
    [|left; eauto].
  rewrite (bind_keeps (_validate_commit_payee_pubkey scr))
    by apply validate_commit_payee_pubkey_keeps.
  destruct (fst (_validate_commit_payee_pubkey scr p)) as [[]|e];
    [|left; eauto].
  right. reflexivity.
Qed.

Lemma set_commit_validated tx script_hex scr p :
  h2b script_hex = Some scr -> passes_commit_validation tx scr p ->
  set_commit tx script_hex p
  = set_commit_loop tx script_hex (get_commit_revoke_secret_hash scr)
      (commits_requested p) p.
Proof.
  intros Escr (Etx & (s & Es & Eh) & (w & Ew & Ek)).
  unfold set_commit, _validate_payer_commit.
  erewrite bind_ret
    by (rewrite assert_one_bad_signature_run, Etx; reflexivity).
  rewrite (bind_ret _ _ _ _ _ (py_h2b_run _ _ p Escr)).
  erewrite bind_ret by (eapply validate_commit_secret_hash_run; eassumption).
  erewrite bind_ret by (eapply validate_commit_payee_pubkey_run; eassumption).
  reflexivity.
Qed.

Lemma set_commit_loop_no_match tx script_hex rh requested p :
  no_request_matches rh requested ->
  set_commit_loop tx script_hex rh requested p = (Ret None, p).
Proof.
  induction 1 as [|secret rest (h & Eh & Hne) _ IH]; [reflexivity|].
  cbn [set_commit_loop]. unfold py_hash160hex at 1. rewrite Eh.
  rewrite (bind_ret _ _ _ h p eq_refl).
  apply not_eq_sym, String.eqb_neq in Hne. now rewrite Hne.
Qed.

(** C2: when no secret of [commits_requested] hashes to the revoke-secret
    hash of the script, [set_commit] accepts nothing and leaves the whole
    channel as it was, whatever else it finds; for a commit that passes
    its validations it returns [None], it does not raise. *)
Theorem set_commit_unknown_revoke_hash tx script_hex scr p :
  h2b script_hex = Some scr ->
  no_request_matches (get_commit_revoke_secret_hash scr) (commits_requested p) ->
  (exists out, set_commit tx script_hex p = (out, p)
               /\ forall amount, out <> Ret (Some amount))
  /\ (passes_commit_validation tx scr p ->
      set_commit tx script_hex p = (Ret None, p)).
Proof.
  intros Escr Hno. split.
  - destruct (set_commit_validations tx script_hex scr p Escr) as [[e E]|E].
    + exists (Raise e). split; [exact E | discriminate].
    + exists (Ret None). split; [|discriminate].
      rewrite E. now apply set_commit_loop_no_match.
  - intros Hv. rewrite (set_commit_validated _ _ _ _ Escr Hv).
    now apply set_commit_loop_no_match.
Qed.

Lemma list_remove_first secret before after :
  Forall (fun x => x <> secret) before ->
  list_remove secret (before ++ secret :: after) = Some (before ++ after).
Proof.
  induction 1 as [|x rest Hx _ IH]; cbn.
  - now rewrite String.eqb_refl.
  - apply String.eqb_neq in Hx. now rewrite Hx, IH.
Qed.

Lemma no_request_matches_neq rh requested secret :
  no_request_matches rh requested -> hash160hex secret = Some rh ->
  Forall (fun x => x <> secret) requested.
Proof.
  intros Hno Eh. eapply Forall_impl; [|exact Hno].
  intros x (h & Ex & Hne) ->. congruence.
Qed.

(** One round of the loop of [set_commit] at a request that matches. *)
Lemma set_commit_loop_hit tx script_hex rh secret rest p requested' :
  hash160hex secret = Some rh ->
  list_remove secret (commits_requested p) = Some requested' ->
  set_commit_loop tx script_hex rh (secret :: rest) p
  = (Ret (Some (get_quantity tx)), accepted tx script_hex secret requested' p).
Proof.
  intros Eh Er. cbn [set_commit_loop]. unfold py_hash160hex at 1. rewrite Eh.
  rewrite (bind_ret _ _ _ rh p eq_refl), String.eqb_refl.
  unfold commits_requested_remove, bind at 1 2, get. rewrite Er.
  unfold _order_active, commits_active_append, get_transferred_amount,
    bind, modify, get, ret, accepted. cbn.
  rewrite map_app. cbn [map]. rewrite last_snoc. reflexivity.
Qed.

Lemma set_commit_loop_miss tx script_hex rh secret rest p h :
  hash160hex secret = Some h -> h <> rh ->
  set_commit_loop tx script_hex rh (secret :: rest) p
  = set_commit_loop tx script_hex rh rest p.
Proof.
  intros Eh Hne. cbn [set_commit_loop]. unfold py_hash160hex at 1. rewrite Eh.
  rewrite (bind_ret _ _ _ h p eq_refl).
  apply not_eq_sym, String.eqb_neq in Hne. now rewrite Hne.
Qed.

Lemma set_commit_loop_first_match tx script_hex rh before secret after p requested' :
  no_request_matches rh before ->
  hash160hex secret = Some rh ->
  list_remove secret (commits_requested p) = Some requested' ->
  set_commit_loop tx script_hex rh (before ++ secret :: after) p
  = (Ret (Some (get_quantity tx)), accepted tx script_hex secret requested' p).
Proof.
  intros Hno Eh Er.
  induction Hno as [|x rest (h & Ex & Hne) _ IH]; cbn [app].
  - now apply set_commit_loop_hit.
  - now rewrite (set_commit_loop_miss _ _ _ _ _ _ _ Ex Hne).
Qed.

Lemma set_commit_accepts tx script_hex scr p before secret after :
  h2b script_hex = Some scr ->
  passes_commit_validation tx scr p ->
  commits_requested p = before ++ secret :: after ->
  no_request_matches (get_commit_revoke_secret_hash scr) before ->
  hash160hex secret = Some (get_commit_revoke_secret_hash scr) ->
  set_commit tx script_hex p
  = (Ret (Some (get_quantity tx)),
     accepted tx script_hex secret (before ++ after) p).
Proof.
  intros Escr Hv Ereq Hno Eh.
  rewrite (set_commit_validated _ _ _ _ Escr Hv), Ereq.
  apply set_commit_loop_first_match; try assumption.
  rewrite Ereq. apply list_remove_first.
  eapply no_request_matches_neq; eassumption.
Qed.


(** *** A run of requests and matching commits *)

Lemma request_commit_run quantity entropy p :
  0 <= quantity ->
  last (map quantity_of (commits_active p)) 0 <= quantity ->
  request_commit quantity entropy p
  = (Ret (quantity, b2h (hash160 entropy)),
     set_commits_requested (commits_requested p ++ [b2h entropy]) p).
Proof.
  intros H0q Hlast.
  unfold request_commit, _validate_transfer_quantity, get_transferred_amount.
  unfold bind at 1 2 3, get, ret.
  apply Z.leb_le in H0q, Hlast. rewrite H0q, Hlast. cbn [andb].
  unfold py_hash160hex. rewrite hash160hex_b2h. reflexivity.
Qed.

Lemma request_commits_run requests : forall p,
  Forall (fun r => 0 <= fst r
                   /\ last (map quantity_of (commits_active p)) 0 <= fst r)
    requests ->
  request_commits requests p
  = (Ret (map (fun r => (fst r, b2h (hash160 (snd r)))) requests),
     set_commits_requested
       (commits_requested p ++ map (fun r => b2h (snd r)) requests) p).
Proof.
  induction requests as [|[q e] rest IH]; intros p Hall.
  - cbn. rewrite app_nil_r. now destruct p.
  - inversion Hall as [|? ? [H0q Hlast] Hrest]; subst. cbn [request_commits].
    rewrite (bind_ret _ _ _ _ _ (request_commit_run q e p H0q Hlast)).
    rewrite (bind_ret _ _ _ _ _
               (IH (set_commits_requested (commits_requested p ++ [b2h e]) p)
                   Hrest)).
    cbn. now rewrite <- app_assoc.
Qed.

Lemma passes_commit_validation_keys tx scr p p' :
  spend_secret p' = spend_secret p -> payee_wif p' = payee_wif p ->
  passes_commit_validation tx scr p -> passes_commit_validation tx scr p'.
Proof.
  intros Es Ew (Etx & Hs & Hw). unfold passes_commit_validation.
  now rewrite Es, Ew.
Qed.

Lemma commit_embeds_keys p p' commit rh :
  spend_secret p' = spend_secret p -> payee_wif p' = payee_wif p ->
  commit_embeds p commit rh -> commit_embeds p' commit rh.
Proof.
  intros Es Ew (scr & Escr & Hv & Erh). exists scr.
  eauto using passes_commit_validation_keys.
Qed.

(** Among requests that all have a hash, the first one with a given hash. *)
Lemma first_request_with_hash rh requested :
  Forall (fun s => hash160hex s <> None) requested ->
  In (Some rh) (map hash160hex requested) ->
  exists before secret after,
    requested = before ++ secret :: after
    /\ no_request_matches rh before
    /\ hash160hex secret = Some rh.
Proof.
  induction 1 as [|x rest Hx _ IH]; cbn; [intros []|]. intros Hin.
  destruct (hash160hex x) as [h|] eqn:Ex; [clear Hx|contradiction].
  destruct (String.eqb_spec h rh) as [->|Hne].
  - exists [], x, rest. repeat split; [constructor | exact Ex].
  - destruct IH as (before & secret & after & -> & Hno & Es).
    { destruct Hin as [[=]|Hin]; [contradiction|exact Hin]. }
    exists (x :: before), secret, after. repeat split; [|exact Es].
    constructor; [eauto | exact Hno].
Qed.

Lemma set_commits_run commits : forall hashes p,
  Forall2 (commit_embeds p) commits hashes ->
  Forall (fun s => hash160hex s <> None) (commits_requested p) ->
  (exists others, Permutation (map hash160hex (commits_requested p))
                    (map Some hashes ++ others)) ->
  StronglySorted Z.lt (map tx_quantity commits) ->
  Forall (fun c => forall commit, In commit commits ->
                                  quantity_of c <= tx_quantity commit)
    (commits_active p) ->
  exists p',
    set_commits commits p
    = (Ret (map (fun commit => Some (tx_quantity commit)) commits), p')
    /\ (commits <> [] ->
        ascending (commits_active p')
        /\ last (map quantity_of (commits_active p')) 0
           = last (map tx_quantity commits) 0).
Proof.
  induction commits as [|[tx sh] rest IH]; intros hashes p Hemb Hhex Hperm Hinc Hact.
  - exists p. split; [reflexivity|]. intros []. reflexivity.
  - inversion Hemb as [|? rh ? hashes' (scr & Escr & Hv & Erh) Hrest]; subst.
    cbn [fst snd] in *.
    destruct Hperm as (others & Hperm). cbn [map app] in Hperm.
    destruct (first_request_with_hash (get_commit_revoke_secret_hash scr)
                (commits_requested p) Hhex)
      as (before & secret & after & Ereq & Hno & Es).
    { eapply Permutation_in; [symmetry; exact Hperm | now left]. }
    pose proof (set_commit_accepts tx sh scr p before secret after
                  Escr Hv Ereq Hno Es) as Estep.
    set (p1 := accepted tx sh secret (before ++ after) p) in *.
    inversion Hinc as [|? ? Hinc' Hlt]; subst.
    destruct (IH hashes' p1) as (p' & Erun & Hfinal).
    + eapply Forall2_impl; [|exact Hrest].
      intros c h. now apply commit_embeds_keys.
    + cbn. rewrite Ereq in Hhex. rewrite Forall_app in *.
      destruct Hhex as [Hb Ha]. inversion Ha; subst. now split.
    + exists others. cbn.
      apply Permutation_cons_inv
        with (a := Some (get_commit_revoke_secret_hash scr)).
      rewrite <- Hperm, Ereq, !map_app. cbn [map]. rewrite Es.
      apply Permutation_middle.
    + exact Hinc'.
    + cbn. rewrite Forall_app. split.
      * eapply Permutation_Forall; [symmetry; apply sort_commits_perm|].
        eapply Forall_impl; [|exact Hact]. cbn. intros c Hc commit Hin.
        apply Hc. now right.
      * constructor; [|constructor]. intros commit Hin.
        rewrite Forall_forall in Hlt. unfold quantity_of. cbn.
        apply Z.lt_le_incl, Hlt. now apply in_map.
    + exists p'. cbn [set_commits map].
      rewrite (bind_ret _ _ _ _ _ Estep), (bind_ret _ _ _ _ _ Erun).
      split; [reflexivity|]. intros _.
      destruct rest as [|c2 rest'].
      * cbn in Erun. injection Erun as <-. cbn. split.
        -- apply ascending_strongly, strongly_sorted_snoc_intro;
             [apply sort_commits_sorted|].
           eapply Permutation_Forall; [symmetry; apply sort_commits_perm|].
           eapply Forall_impl; [|exact Hact]. cbn. intros c Hc.
           apply (Hc (tx, sh)). now left.
        -- rewrite map_app. cbn [map]. now rewrite last_snoc.
      * destruct Hfinal as [Hasc Hlast]; [discriminate|].
        split; [exact Hasc|]. rewrite Hlast. reflexivity.
Qed.

(** C6: on a channel whose pending requests all have a hash and whose
    active commits do not exceed the requested quantities,
    [request_commit(q1) ... request_commit(qn)] with non-negative
    quantities, followed by the [set_commit] calls for commits that answer
    the requests one by one with strictly increasing quantities, all
    succeed; each [set_commit] returns its quantity, the final
    [commits_active] is ascending by quantity and the transferred amount
    is the last quantity [qn]. *)
Theorem increasing_commits_end_ordered p requests commits :
  requests <> [] ->
  Forall (fun r => 0 <= fst r) requests ->
  StronglySorted Z.lt (map fst requests) ->
  Forall2 (matching_commit p) requests commits ->
  Forall (fun s => hash160hex s <> None) (commits_requested p) ->
  Forall (fun c => forall r, In r requests -> quantity_of c <= fst r)
    (commits_active p) ->
  exists p1 p2,
    request_commits requests p
    = (Ret (map (fun r => (fst r, b2h (hash160 (snd r)))) requests), p1)
    /\ set_commits commits p1
       = (Ret (map (fun r => Some (fst r)) requests), p2)
    /\ ascending (commits_active p2)
    /\ get_transferred_amount p2 = (Ret (last (map fst requests) 0), p2).
Proof.
  intros Hne Hpos Hinc Hmatch Hhex Hact.
  set (p1 := set_commits_requested
               (commits_requested p ++ map (fun r => b2h (snd r)) requests) p).
  assert (Hq : map tx_quantity commits = map fst requests).
  { clear -Hmatch. induction Hmatch as [|r c rs cs [Eq _] _ IH]; cbn [map];
      [reflexivity|]. now rewrite Eq, IH. }
  assert (Ereq : request_commits requests p
                 = (Ret (map (fun r => (fst r, b2h (hash160 (snd r)))) requests),
                    p1)).
  { apply request_commits_run. rewrite Forall_forall in *.
    intros r Hr. split; [now apply Hpos|].
    destruct (commits_active p) as [|c0 l0] eqn:Ea; [cbn; now apply Hpos|].
    rewrite <- Ea in *.
    assert (commits_active p <> []) as Hnil by (rewrite Ea; discriminate).
    rewrite (last_map_nonempty quantity_of _ c0 0 Hnil).
    apply Hact; [now apply last_nonempty_in | exact Hr]. }
  destruct (set_commits_run commits
              (map (fun r => b2h (hash160 (snd r))) requests) p1)
    as (p2 & Erun & Hfinal).
  - clear -Hmatch. induction Hmatch as [|r c rs cs [_ Hemb] _ IH]; cbn;
      constructor; [|exact IH].
    eapply commit_embeds_keys; [| |exact Hemb]; reflexivity.
  - cbn. rewrite Forall_app. split; [exact Hhex|].
    apply Forall_forall. intros x Hx. apply in_map_iff in Hx.
    destruct Hx as (r & <- & _). rewrite hash160hex_b2h. discriminate.
  - exists (map hash160hex (commits_requested p)). cbn.
    rewrite map_app, !map_map.
    rewrite Permutation_app_comm. apply Permutation_app_tail.
    erewrite map_ext; [reflexivity|]. intros r. cbn.
    now rewrite hash160hex_b2h.
  - now rewrite Hq.
  - cbn. eapply Forall_impl; [|exact Hact]. cbn. intros c Hc commit Hin.
    apply (in_map tx_quantity) in Hin. rewrite Hq in Hin.
    apply in_map_iff in Hin. destruct Hin as (r & <- & Hr). now apply Hc.
  - exists p1, p2. split; [exact Ereq|].
    assert (commits <> []) as Hc
      by (intros ->; inversion Hmatch; subst; now apply Hne).
    destruct (Hfinal Hc) as [Hasc Hlast].
    split; [|split; [exact Hasc|]].
    + rewrite Erun. f_equal. f_equal.
      rewrite <- (map_map tx_quantity Some), <- (map_map fst Some).
      now rewrite Hq.
    + unfold get_transferred_amount, bind, get, ret.
      now rewrite Hlast, Hq.
Qed.

(** *** revoke_until *)

Lemma filter_none {A} (f : A -> bool) l :
  Forall (fun x => f x = false) l -> filter f l = [].
Proof.
  induction 1 as [|x rest Hx _ IH]; cbn; [reflexivity|]. now rewrite Hx.
Qed.

Lemma filter_all {A} (f : A -> bool) l :
  Forall (fun x => f x = true) l -> filter f l = l.
Proof.
  induction 1 as [|x rest Hx _ IH]; cbn; [reflexivity|].
  now rewrite Hx, IH.
Qed.

(** In an ordered list the commits above a threshold are the upper end. *)
Lemma ordered_split q l :
  StronglySorted by_quantity l ->
  l = filter (fun c => quantity_of c <=? q) l
      ++ filter (fun c => q <? quantity_of c) l.
Proof.
  induction 1 as [|c rest Hs IH Hc]; [reflexivity|]. cbn [filter].
  destruct (Z.leb_spec (quantity_of c) q) as [Hle|Hgt].
  - apply Z.ltb_ge in Hle. rewrite Hle. cbn. now rewrite <- IH.
  - assert (Forall (fun d => q < quantity_of d) rest) as Hall
      by (eapply Forall_impl; [|exact Hc]; unfold by_quantity; intros; lia).
    rewrite filter_none, filter_all.
    + apply Z.ltb_lt in Hgt. now rewrite Hgt.
    + eapply Forall_impl; [|exact Hall]. intros d. apply Z.ltb_lt.
    + eapply Forall_impl; [|exact Hall]. intros d. cbn. apply Z.leb_gt.
Qed.

Lemma revoke_scan_stops q above rest :
  Forall (fun c => q < quantity_of c) above ->
  match rest with [] => True | c :: _ => quantity_of c <= q end ->
  revoke_scan q (above ++ rest) = map revoke_secret above.
Proof.
  induction 1 as [|c above' Hc _ IH]; cbn [app map]; intros Hrest.
  - destruct rest as [|c rest']; [reflexivity|]. cbn.
    apply Z.ltb_ge in Hrest. now rewrite Hrest.
  - cbn. apply Z.ltb_lt in Hc. now rewrite Hc, IH.
Qed.

Lemma revoke_scan_ordered q l :
  StronglySorted by_quantity l ->
  revoke_scan q (rev l)
  = map revoke_secret (rev (filter (fun c => q <? quantity_of c) l)).
Proof.
  intros Hs. rewrite (ordered_split q l Hs) at 1. rewrite rev_app_distr.
  apply revoke_scan_stops.
  - apply Forall_rev, Forall_forall. intros c Hc.
    apply filter_In in Hc. now apply Z.ltb_lt.
  - destruct (rev (filter (fun c => quantity_of c <=? q) l)) as [|c rest] eqn:E;
      [exact I|].
    assert (In c (filter (fun c => quantity_of c <=? q) l)) as Hc
      by (apply in_rev; rewrite E; now left).
    apply filter_In in Hc. now apply Z.leb_le.
Qed.

Lemma take_commit_last l c :
  ~ In (revoke_secret c) (map revoke_secret l) ->
  take_commit (revoke_secret c) (l ++ [c]) = Some (c, l).
Proof.
  induction l as [|d rest IH]; cbn; intros Hn.
  - now rewrite String.eqb_refl.
  - destruct (String.eqb_spec (revoke_secret d) (revoke_secret c)) as [E|_];
      [tauto|].
    rewrite IH by tauto. reflexivity.
Qed.

Lemma take_commit_some secret l :
  In secret (map revoke_secret l) ->
  exists c rest, take_commit secret l = Some (c, rest)
                 /\ Permutation l (c :: rest).
Proof.
  induction l as [|d rest IH]; cbn; [intros []|]. intros Hin.
  destruct (String.eqb_spec (revoke_secret d) secret) as [E|Hne].
  - now exists d, rest.
  - destruct IH as (c & rest' & -> & Hp); [tauto|].
    exists c, (d :: rest'). split; [reflexivity|].
    rewrite Hp. apply perm_swap.
Qed.

Lemma revoke_all_returns secrets p : fst (revoke_all secrets p) = Ret tt.
Proof.
  revert p. induction secrets as [|s rest IH]; intros p; [reflexivity|].
  cbn [revoke_all]. unfold bind, revoke at 1, modify. apply IH.
Qed.

(** Revoking the secrets of the upper end of the active list, last commit
    first, moves exactly that upper end, when no two active commits carry
    the same secret. *)
Lemma revoke_all_upper_end gone : forall keep p,
  commits_active p = keep ++ gone ->
  NoDup (map revoke_secret (keep ++ gone)) ->
  revoke_all (map revoke_secret (rev gone)) p
  = (Ret tt, set_commits_revoked (commits_revoked p ++ rev gone)
               (set_commits_active keep p)).
Proof.
  induction gone as [|c gone' IH] using rev_ind; intros keep p Ea Hnd.
  - cbn. rewrite app_nil_r in *. destruct p; cbn in *. now subst.
  - rewrite rev_app_distr. cbn [rev app map revoke_all].
    rewrite app_assoc in Ea, Hnd.
    unfold bind, revoke at 1, modify. rewrite Ea, take_commit_last.
    + rewrite IH with (keep := keep); [|reflexivity|].
      * cbn. now rewrite <- app_assoc.
      * rewrite map_app in Hnd. now apply NoDup_app_remove_r in Hnd.
    + rewrite map_app in Hnd. cbn in Hnd.
      apply NoDup_remove_2 in Hnd. now rewrite app_nil_r in Hnd.
Qed.

(** Revoking the secrets of all active commits empties the active list. *)
Lemma revoke_all_exhausts secrets : forall p,
  Permutation (map revoke_secret (commits_active p)) secrets ->
  commits_active (snd (revoke_all secrets p)) = [].
Proof.
  induction secrets as [|s rest IH]; intros p Hp.
  - symmetry in Hp. apply Permutation_nil in Hp. cbn.
    now destruct (commits_active p).
  - cbn [revoke_all]. unfold bind, revoke at 1, modify.
    destruct (take_commit_some s (commits_active p)) as (c & l & E & Hl).
    { eapply Permutation_in; [symmetry; exact Hp | now left]. }
    rewrite E. apply IH. cbn.
    apply Permutation_cons_inv with (a := s).
    rewrite <- Hp, Hl. cbn.
    enough (revoke_secret c = s) as -> by reflexivity.
    clear -E. induction (commits_active p) as [|d rest' IHl] in l, E |- *;
      cbn in E; [discriminate|].
    destruct (String.eqb_spec (revoke_secret d) s) as [Ed|_].
    + now injection E as <- _.
    + destruct (take_commit s rest') as [[e r]|]; [|discriminate].
      injection E as <- _. now apply (IHl r).
Qed.

(** C1: [revoke_until q] orders the active commits and walks them from
    the highest quantity down; the commits with a quantity above [q] are
    the upper end of the ordered list, the returned secrets are theirs,
    highest first, and the walk stops at the first commit that does not
    exceed [q].  When the active commits carry pairwise distinct revoke
    secrets, exactly those commits move from active to revoked, and a
    commit whose quantity is [q] stays active.  If [q] is below every
    active quantity all secrets are returned and [commits_active] ends
    empty; if no active quantity exceeds [q], nothing is returned and
    nothing moves. *)
Theorem revoke_until_discloses_above q p :
  let ordered := sort_commits (commits_active p) in
  let keep := filter (fun c => quantity_of c <=? q) ordered in
  let gone := filter (fun c => q <? quantity_of c) ordered in
  exists secrets p',
    revoke_until q p = (Ret secrets, p')
    /\ ordered = keep ++ gone
    /\ secrets = map revoke_secret (rev gone)
    /\ (NoDup (map revoke_secret (commits_active p)) ->
        p' = set_commits_revoked (commits_revoked p ++ rev gone)
               (set_commits_active keep p))
    /\ (Forall (fun c => q < quantity_of c) (commits_active p) ->
        secrets = map revoke_secret (rev ordered) /\ commits_active p' = [])
    /\ (Forall (fun c => quantity_of c <= q) (commits_active p) ->
        secrets = [] /\ p' = set_commits_active ordered p).
Proof.
  intros ordered keep gone.
  pose proof (sort_commits_sorted (commits_active p)) as Hs.
  fold ordered in Hs.
  pose proof (ordered_split q ordered Hs) as Esplit.
  fold keep gone in Esplit.
  pose proof (revoke_scan_ordered q ordered Hs) as Escan. fold gone in Escan.
  set (p1 := set_commits_active ordered p).
  assert (Erun : revoke_until q p
                 = (Ret (map revoke_secret (rev gone)),
                    snd (revoke_all (map revoke_secret (rev gone)) p1))).
  { unfold revoke_until, _order_active, bind at 1, modify. fold ordered p1.
    unfold bind at 1, get. cbn [commits_active set_commits_active p1].
    fold ordered. rewrite Escan. unfold bind, ret.
    pose proof (revoke_all_returns (map revoke_secret (rev gone)) p1) as R.
    destruct (revoke_all _ p1) as [[[]|e] p2]; cbn in R; [reflexivity|].
    discriminate. }
  exists (map revoke_secret (rev gone)),
    (snd (revoke_all (map revoke_secret (rev gone)) p1)).
  split; [exact Erun|]. split; [exact Esplit|]. split; [reflexivity|].
  split; [|split].
  - intros Hnd. rewrite (revoke_all_upper_end gone keep p1).
    + reflexivity.
    + cbn. exact Esplit.
    + rewrite <- Esplit. eapply Permutation_NoDup; [|exact Hnd].
      apply Permutation_map. symmetry. apply sort_commits_perm.
  - intros Hall.
    assert (gone = ordered) as Eg.
    { apply filter_all, Forall_forall. intros c Hc. apply Z.ltb_lt.
      rewrite Forall_forall in Hall. apply Hall.
      eapply Permutation_in; [apply sort_commits_perm|exact Hc]. }
    rewrite Eg. split; [reflexivity|].
    apply revoke_all_exhausts. cbn. rewrite map_rev. apply Permutation_rev.
  - intros Hall.
    assert (gone = []) as Eg.
    { apply filter_none, Forall_forall. intros c Hc. apply Z.ltb_ge.
      rewrite Forall_forall in Hall. apply Hall.
      eapply Permutation_in; [apply sort_commits_perm|exact Hc]. }
    rewrite Eg. split; reflexivity.
Qed.

(** *** get_payout_recoverable *)

Lemma utxo_loop_in scr delay utxos scripts s :
  In s (utxo_loop scr delay utxos scripts)
  <-> In s scripts
      \/ (s = scr /\ exists utxo, In utxo utxos /\ delay <= confirms (txid utxo)).
Proof.
  revert scripts. induction utxos as [|u rest IH]; intros scripts; cbn.
  - split; [auto|]. intros [?|(_ & ? & [] & _)]. assumption.
  - destruct (Z.geb_spec (confirms (txid u)) delay) as [Hge|Hlt];
      rewrite IH; [rewrite in_app_iff; cbn|].
    + split.
      * intros [[?|[<-|[]]]|(-> & v & Hv & Hd)]; eauto 7.
      * intros [?|(-> & v & [<-|Hv] & Hd)]; eauto 7.
    + split.
      * intros [?|(-> & v & Hv & Hd)]; eauto 7.
      * intros [?|(-> & v & [<-|Hv] & Hd)]; eauto 7. lia.
Qed.

Lemma recoverable_loop_spec commits p :
  Forall (fun c => h2b (script c) <> None) commits ->
  forall scripts, exists scripts',
    recoverable_loop commits scripts p = (Ret scripts', p)
    /\ forall s, In s scripts'
                 <-> In s scripts \/ exists c, In c commits /\ sweepable c s.
Proof.
  induction 1 as [|c rest Hc _ IH]; intros scripts.
  - exists scripts. split; [reflexivity|].
    intros s. split; [auto|]. intros [?|(? & [] & _)]. assumption.
  - destruct (h2b (script c)) as [scr|] eqn:Ec; [clear Hc|contradiction].
    cbn [recoverable_loop].
    rewrite (bind_ret _ _ _ _ _ (py_h2b_run _ _ p Ec)).
    destruct (_commit_spent c) eqn:Espent.
    { destruct (IH scripts) as (res & E & Hres). exists res.
      split; [exact E|]. intros s. rewrite Hres. split.
      - intros [?|(d & Hd & Hs)]; [auto|right; exists d; cbn; auto].
      - intros [?|(d & [<-|Hd] & Hs)]; [auto| |eauto].
        destruct Hs as (_ & Hs & _). congruence. }
    destruct (can_spend_from_address (script2address scr netcode)) eqn:Ecan.
    + destruct (IH (utxo_loop scr (get_commit_delay_time scr)
                      (retrieve_utxos [script2address scr netcode]) scripts))
        as (res & E & Hres).
      exists res. split; [exact E|]. intros s. rewrite Hres, utxo_loop_in.
      split.
      * intros [[?|(-> & u & Hu & Hd)]|(d & Hd & Hs)]; [auto| |].
        -- right. exists c. split; [now left|]. unfold sweepable. eauto 7.
        -- right. exists d. cbn. auto.
      * intros [?|(d & [<-|Hd] & Hs)]; [auto| |eauto].
        destruct Hs as (Es & _ & _ & u & Hu & Hd).
        rewrite Ec in Es. injection Es as <-. left. right. eauto.
    + destruct (IH scripts) as (res & E & Hres). exists res.
      split; [exact E|]. intros s. rewrite Hres. split.
      * intros [?|(d & Hd & Hs)]; [auto|right; exists d; cbn; auto].
      * intros [?|(d & [<-|Hd] & Hs)]; [auto| |eauto].
        destruct Hs as (Es & _ & Hs & _).
        rewrite Ec in Es. injection Es as <-. congruence.
Qed.

(** Leaving out the commits reported spent changes nothing. *)
Lemma recoverable_loop_skips_spent commits p :
  Forall (fun c => h2b (script c) <> None) commits ->
  forall scripts,
    recoverable_loop (filter (fun c => negb (_commit_spent c)) commits) scripts p
    = recoverable_loop commits scripts p.
Proof.
  induction 1 as [|c rest Hc _ IH]; intros scripts; [reflexivity|].
  destruct (h2b (script c)) as [scr|] eqn:Ec; [clear Hc|contradiction].
  cbn [filter recoverable_loop].
  destruct (_commit_spent c) eqn:Espent; cbn [negb].
  - rewrite (bind_ret _ _ _ _ _ (py_h2b_run _ _ p Ec)). apply IH.
  - cbn [recoverable_loop].
    rewrite !(bind_ret _ _ _ _ _ (py_h2b_run _ _ p Ec)), Espent.
    destruct (can_spend_from_address _); apply IH.
Qed.

(** C7: on a channel whose stored scripts are hex strings,
    [get_payout_recoverable] returns, without touching the channel,
    exactly the scripts of the commits (active or revoked) that are not
    reported spent, whose address is reported spendable and that have a
    UTXO at least as deep as the script's delay; the commits reported
    spent contribute nothing, the result is the one for the channel
    without them. *)
Theorem get_payout_recoverable_collects p :
  Forall (fun c => h2b (script c) <> None)
    (commits_active p ++ commits_revoked p) ->
  exists scripts,
    get_payout_recoverable p = (Ret scripts, p)
    /\ (forall s, In s scripts
                  <-> exists c, In c (commits_active p ++ commits_revoked p)
                                /\ sweepable c s)
    /\ (forall c s, _commit_spent c = true -> ~ sweepable c s)
    /\ recoverable_loop
         (filter (fun c => negb (_commit_spent c))
            (commits_active p ++ commits_revoked p)) [] p
       = (Ret scripts, p).
Proof.
  intros Hhex.
  destruct (recoverable_loop_spec _ p Hhex []) as (scripts & E & Hin).
  exists scripts. unfold get_payout_recoverable, bind, get.
  repeat split.
  - exact E.
  - intros Hs. apply Hin in Hs. destruct Hs as [[]|Hs]. exact Hs.
  - intros Hs. apply Hin. now right.
  - intros c s Hspent (_ & Hs & _). congruence.
  - rewrite recoverable_loop_skips_spent by exact Hhex. exact E.
Qed.

(** *** payout_confirmed *)

Lemma payout_confirmed_unsigned n p :
  unsigned (PyInt n) = None ->
  payout_confirmed (PyInt n) p
  = (Ret (forallb (fun r => n <=? confirms (gettxid r)) (payout_rawtxs p)), p).
Proof.
  intros Hn. unfold payout_confirmed, validate_unsigned, bind.
  now rewrite Hn.
Qed.

Lemma payout_confirmed_refused v e p :
  unsigned v = Some e -> payout_confirmed v p = (Raise e, p).
Proof.
  intros Hv. unfold payout_confirmed, validate_unsigned, bind.
  now rewrite Hv.
Qed.

End Facts.

(** * Further properties of the payee methods *)

Lemma run_ret {A} (c : M A) p a :
  snd (c p) = p -> fst (c p) = Ret a -> c p = (Ret a, p).
Proof. destruct (c p) as [o p1]; cbn. now intros -> ->. Qed.

Lemma run_raise {A} (c : M A) p e :
  snd (c p) = p -> fst (c p) = Raise e -> c p = (Raise e, p).
Proof. destruct (c p) as [o p1]; cbn. now intros -> ->. Qed.

Section MoreFacts.

Context `{Util} `{Scripts} `{Control} `{Validate} `{Builder}.

(** ** set_deposit *)

Lemma assert_unopen_state_cases p :
  _assert_unopen_state p = (Ret tt, p)
  \/ _assert_unopen_state p = (Raise AssertionError, p).
Proof.
  unfold _assert_unopen_state, bind, get.
  destruct p as [a b c d e f g h i]; cbn.
  destruct a, b, c, d, e, g, h; cbn; auto.
Qed.

Lemma own_spend_secret_hash_inv p h p' :
  own_spend_secret_hash p = (Ret h, p') ->
  exists s, spend_secret p = Some s /\ hash160hex s = Some h.
Proof.
  unfold own_spend_secret_hash, bind, get.
  destruct (spend_secret p) as [s|] eqn:Es; cbn; [|discriminate].
  unfold py_hash160hex. destruct (hash160hex s) as [h'|] eqn:Eh; [|discriminate].
  intros [= <- _]. eauto.
Qed.

Lemma own_payee_pubkey_inv p k p' :
  own_payee_pubkey p = (Ret k, p') ->
  exists w, payee_wif p = Some w /\ k = wif2pubkey w.
Proof.
  unfold own_payee_pubkey, bind, get.
  destruct (payee_wif p) as [w|] eqn:Ew; cbn; [|discriminate].
  intros [= <- _]. eauto.
Qed.

Lemma validate_deposit_spend_secret_hash_keeps scr p :
  snd (_validate_deposit_spend_secret_hash scr p) = p.
Proof.
  unfold _validate_deposit_spend_secret_hash, bind.
  pose proof (own_spend_secret_hash_keeps p) as K.
  destruct (own_spend_secret_hash p) as [[own|e] p1]; cbn in *; subst;
    [|reflexivity].
  now destruct (negb _).
Qed.

Lemma validate_deposit_payee_pubkey_keeps scr p :
  snd (_validate_deposit_payee_pubkey scr p) = p.
Proof.
  unfold _validate_deposit_payee_pubkey, bind.
  pose proof (own_payee_pubkey_keeps p) as K.
  destruct (own_payee_pubkey p) as [[own|e] p1]; cbn in *; subst;
    [|reflexivity].
  now destruct (negb _).
Qed.

Lemma validate_deposit_spend_secret_hash_inv scr p u p' :
  _validate_deposit_spend_secret_hash scr p = (Ret u, p') ->
  exists s, spend_secret p = Some s
            /\ hash160hex s = Some (get_deposit_spend_secret_hash scr).
Proof.
  unfold _validate_deposit_spend_secret_hash, bind.
  destruct (own_spend_secret_hash p) as [[own|e] p1] eqn:E; [|discriminate].
  destruct (String.eqb_spec (get_deposit_spend_secret_hash scr) own) as [->|_];
    cbn; [|discriminate].
  intros _. eapply own_spend_secret_hash_inv, E.
Qed.

Lemma validate_deposit_payee_pubkey_inv scr p u p' :
  _validate_deposit_payee_pubkey scr p = (Ret u, p') ->
  exists w, payee_wif p = Some w
            /\ get_deposit_payee_pubkey scr = wif2pubkey w.
Proof.
  unfold _validate_deposit_payee_pubkey, bind.
  destruct (own_payee_pubkey p) as [[own|e] p1] eqn:E; [|discriminate].
  destruct (String.eqb_spec (get_deposit_payee_pubkey scr) own) as [->|_];
    cbn; [|discriminate].
  intros _. eapply own_payee_pubkey_inv, E.
Qed.

(** [set_deposit] either raises and leaves the channel as it was, or found
    the channel unopened and the deposit valid and stored it. *)
Lemma set_deposit_cases tx script_hex p :
  (exists e, set_deposit tx script_hex p = (Raise e, p))
  \/ (_assert_unopen_state p = (Ret tt, p)
      /\ (exists scr, h2b script_hex = Some scr
                      /\ passes_deposit_validation tx scr p)
      /\ set_deposit tx script_hex p = (Ret tt, deposited tx script_hex p)).
Proof.
  unfold set_deposit, _validate_payer_deposit.
  destruct (assert_unopen_state_cases p) as [Eun|Eun];
    [|left; exists AssertionError; now rewrite (bind_raise _ _ _ _ _ Eun)].
  rewrite (bind_ret _ _ _ _ _ Eun).
  rewrite (bind_keeps (assert_one_bad_signature tx))
    by (rewrite assert_one_bad_signature_run; reflexivity).
  rewrite assert_one_bad_signature_run. cbn [fst].
  destruct (bad_signature_count tx) as [n|] eqn:Etx; [|left; eauto].
  destruct (Z.eqb_spec n 1) as [->|_]; [|left; eauto].
  destruct (h2b script_hex) as [scr|] eqn:Escr.
  2:{ left. exists BinasciiError. apply bind_raise. unfold py_h2b.
      now rewrite Escr. }
  rewrite (bind_ret _ _ _ _ _ (py_h2b_run _ _ p Escr)).
  rewrite (bind_keeps (_validate_deposit_spend_secret_hash scr))
    by apply validate_deposit_spend_secret_hash_keeps.
  destruct (fst (_validate_deposit_spend_secret_hash scr p)) as [[]|e] eqn:E1;
    [|left; eauto].
  apply run_ret in E1; [|apply validate_deposit_spend_secret_hash_keeps].
  rewrite (bind_keeps (_validate_deposit_payee_pubkey scr))
    by apply validate_deposit_payee_pubkey_keeps.
  destruct (fst (_validate_deposit_payee_pubkey scr p)) as [[]|e] eqn:E2;
    [|left; eauto].
  apply run_ret in E2; [|apply validate_deposit_payee_pubkey_keeps].
  right. split; [exact Eun|]. split; [|reflexivity].
  exists scr. split; [reflexivity|]. split; [exact Etx|]. split.
  - eapply validate_deposit_spend_secret_hash_inv, E1.
  - eapply validate_deposit_payee_pubkey_inv, E2.
Qed.

Lemma set_deposit_accepts tx script_hex scr p :
  _assert_unopen_state p = (Ret tt, p) ->
  h2b script_hex = Some scr ->
  passes_deposit_validation tx scr p ->
  set_deposit tx script_hex p = (Ret tt, deposited tx script_hex p).
Proof.
  intros Hun Escr (Etx & (s & Es & Eh) & (w & Ew & Ek)).
  unfold set_deposit, _validate_payer_deposit.
  rewrite (bind_ret _ _ _ _ _ Hun).
  erewrite bind_ret by (rewrite assert_one_bad_signature_run, Etx; reflexivity).
  rewrite (bind_ret _ _ _ _ _ (py_h2b_run _ _ p Escr)).
  erewrite bind_ret
    by (erewrite validate_deposit_spend_secret_hash_run by eassumption;
        rewrite String.eqb_refl; reflexivity).
  erewrite bind_ret
    by (erewrite validate_deposit_payee_pubkey_run by eassumption;
        rewrite Ek, String.eqb_refl; reflexivity).
  reflexivity.
Qed.

(** X1: on an unopened channel, a deposit whose transaction has exactly one
    bad signature and whose script embeds the channel's own spend-secret
    hash and payee public key is accepted: [set_deposit] returns and stores
    the transaction and the script, and nothing else changes. *)
Theorem set_deposit_stores_deposit tx script_hex scr p :
  _assert_unopen_state p = (Ret tt, p) ->
  h2b script_hex = Some scr ->
  passes_deposit_validation tx scr p ->
  exists p',
    set_deposit tx script_hex p = (Ret tt, p')
    /\ deposit_rawtx p' = Some tx
    /\ deposit_script_hex p' = Some script_hex
    /\ p' = set_deposit_script_hex (Some script_hex)
              (set_deposit_rawtx (Some tx) p).
Proof.
  intros Hun Escr Hv. exists (deposited tx script_hex p).
  split; [now apply set_deposit_accepts with (scr := scr)|repeat split].
Qed.

(** X2: [set_deposit] stores a deposit only after all its checks: whenever
    it returns, the channel was unopened, the transaction had exactly one
    bad signature, and the script decodes and embeds the hash of the
    channel's spend secret and the payee's public key. *)
Theorem set_deposit_only_validated tx script_hex p u p' :
  set_deposit tx script_hex p = (Ret u, p') ->
  _assert_unopen_state p = (Ret tt, p)
  /\ (exists scr, h2b script_hex = Some scr
                  /\ passes_deposit_validation tx scr p)
  /\ p' = deposited tx script_hex p.
Proof.
  intros E.
  destruct (set_deposit_cases tx script_hex p) as [[e E']|(Hun & Hv & E')];
    rewrite E' in E; [discriminate|].
  injection E as _ <-. auto.
Qed.

(** X3: a [set_deposit] that raises, whatever the exception, leaves the
    whole channel as it was. *)
Theorem set_deposit_failure_keeps_channel tx script_hex p e p' :
  set_deposit tx script_hex p = (Raise e, p') -> p' = p.
Proof.
  intros E.
  destruct (set_deposit_cases tx script_hex p) as [[e' E']|(_ & _ & E')];
    rewrite E' in E; [|discriminate].
  now injection E as _ <-.
Qed.

(** X4: a channel takes one deposit: after a [set_deposit] that returned,
    every further [set_deposit] fails its unopened-state assertion and
    leaves the stored deposit untouched. *)
Theorem set_deposit_only_once tx script_hex p u p' tx2 script_hex2 :
  set_deposit tx script_hex p = (Ret u, p') ->
  set_deposit tx2 script_hex2 p' = (Raise AssertionError, p').
Proof.
  intros E.
  destruct (set_deposit_cases tx script_hex p) as [[e E']|(Hun & _ & E')];
    rewrite E' in E; [discriminate|].
  injection E as _ <-.
  apply bind_raise.
  destruct (assert_unopen_state_inv _ _ _ Hun)
    as (_ & Hpayer & Hpayee & Hsecret & _).
  unfold _assert_unopen_state, bind, get, deposited. cbn.
  rewrite Hpayer. cbn.
  destruct (payee_wif p); [|contradiction]. cbn.
  destruct (spend_secret p); [|contradiction]. reflexivity.
Qed.

(** X5: the pair [setup] returns is the one [set_deposit] expects: on the
    channel [setup] leaves, a deposit whose transaction has exactly one bad
    signature and whose script embeds the returned spend-secret hash and
    public key is accepted. *)
Theorem setup_then_set_deposit wif secret p0 pubkey spend_secret_hash p1
    tx script_hex scr :
  setup wif secret p0 = (Ret (pubkey, spend_secret_hash), p1) ->
  bad_signature_count tx = Some 1 ->
  h2b script_hex = Some scr ->
  get_deposit_spend_secret_hash scr = spend_secret_hash ->
  get_deposit_payee_pubkey scr = pubkey ->
  set_deposit tx script_hex p1 = (Ret tt, deposited tx script_hex p1).
Proof.
  rewrite setup_run. intros [= <- <- <-] Etx Escr Eh Ek.
  apply set_deposit_accepts with (scr := scr); [reflexivity|exact Escr|].
  split; [exact Etx|]. split.
  - exists (b2h secret). split; [reflexivity|].
    now rewrite hash160hex_b2h, Eh.
  - exists wif. split; [reflexivity|exact Ek].
Qed.

(** ** set_commit and request_commit *)

Lemma validate_commit_secret_hash_inv scr p u p' :
  _validate_commit_secret_hash scr p = (Ret u, p') ->
  exists s, spend_secret p = Some s
            /\ hash160hex s = Some (get_commit_spend_secret_hash scr).
Proof.
  unfold _validate_commit_secret_hash, bind.
  destruct (own_spend_secret_hash p) as [[own|e] p1] eqn:E; [|discriminate].
  destruct (String.eqb_spec (get_commit_spend_secret_hash scr) own) as [->|_];
    cbn; [|discriminate].
  intros _. eapply own_spend_secret_hash_inv, E.
Qed.

Lemma validate_commit_payee_pubkey_inv scr p u p' :
  _validate_commit_payee_pubkey scr p = (Ret u, p') ->
  exists w, payee_wif p = Some w
            /\ get_commit_payee_pubkey scr = wif2pubkey w.
Proof.
  unfold _validate_commit_payee_pubkey, bind.
  destruct (own_payee_pubkey p) as [[own|e] p1] eqn:E; [|discriminate].
  destruct (String.eqb_spec (get_commit_payee_pubkey scr) own) as [->|_];
    cbn; [|discriminate].
  intros _. eapply own_payee_pubkey_inv, E.
Qed.

(** The validations of [set_commit] either raise, leaving the channel as it
    was, or hold and hand over to the loop over the requests. *)
Lemma set_commit_validation_cases tx script_hex p :
  (exists e, set_commit tx script_hex p = (Raise e, p))
  \/ (exists scr,
        h2b script_hex = Some scr
        /\ passes_commit_validation tx scr p
        /\ set_commit tx script_hex p
           = set_commit_loop tx script_hex (get_commit_revoke_secret_hash scr)
               (commits_requested p) p).
Proof.
  unfold set_commit, _validate_payer_commit.
  rewrite (bind_keeps (assert_one_bad_signature tx))
    by (rewrite assert_one_bad_signature_run; reflexivity).
  rewrite assert_one_bad_signature_run. cbn [fst].
  destruct (bad_signature_count tx) as [n|] eqn:Etx; [|left; eauto].
  destruct (Z.eqb_spec n 1) as [->|_]; [|left; eauto].
  destruct (h2b script_hex) as [scr|] eqn:Escr.
  2:{ left. exists BinasciiError. apply bind_raise. unfold py_h2b.
      now rewrite Escr. }
  rewrite (bind_ret _ _ _ _ _ (py_h2b_run _ _ p Escr)).
  rewrite (bind_keeps (_validate_commit_secret_hash scr))
    by apply validate_commit_secret_hash_keeps.
  destruct (fst (_validate_commit_secret_hash scr p)) as [[]|e] eqn:E1;
    [|left; eauto].
  apply run_ret in E1; [|apply validate_commit_secret_hash_keeps].
  rewrite (bind_keeps (_validate_commit_payee_pubkey scr))
    by apply validate_commit_payee_pubkey_keeps.
  destruct (fst (_validate_commit_payee_pubkey scr p)) as [[]|e] eqn:E2;
    [|left; eauto].
  apply run_ret in E2; [|apply validate_commit_payee_pubkey_keeps].
  right. exists scr. split; [reflexivity|]. split; [|reflexivity].
  split; [exact Etx|]. split.
  - eapply validate_commit_secret_hash_inv, E1.
  - eapply validate_commit_payee_pubkey_inv, E2.
Qed.

Lemma list_remove_perm x l l' :
  list_remove x l = Some l' -> Permutation l (x :: l').
Proof.
  revert l'. induction l as [|y rest IH]; cbn; intros l'; [discriminate|].
  destruct (String.eqb_spec y x) as [->|_].
  - now intros [= <-].
  - destruct (list_remove x rest) as [r|]; [|discriminate].
    intros [= <-]. rewrite (IH r eq_refl). apply perm_swap.
Qed.

(** The loop of [set_commit] either accepts nothing and leaves the channel
    as it was, or accepts the commit for one of the requests. *)
Lemma set_commit_loop_cases tx script_hex rh requested p :
  (exists out, set_commit_loop tx script_hex rh requested p = (out, p)
               /\ forall amount, out <> Ret (Some amount))
  \/ (exists secret requested',
        In secret requested
        /\ hash160hex secret = Some rh
        /\ list_remove secret (commits_requested p) = Some requested'
        /\ set_commit_loop tx script_hex rh requested p
           = (Ret (Some (get_quantity tx)),
              accepted tx script_hex secret requested' p)).
Proof.
  induction requested as [|secret rest IH].
  - left. exists (Ret None). split; [reflexivity|discriminate].
  - destruct (hash160hex secret) as [h|] eqn:Eh.
    + destruct (String.eqb_spec rh h) as [<-|Hne].
      * destruct (list_remove secret (commits_requested p)) as [req|] eqn:Er.
        -- right. exists secret, req.
           rewrite (set_commit_loop_hit _ _ _ _ _ _ _ Eh Er). cbn. auto.
        -- left. exists (Raise (ValueError "list.remove(x): x not in list")).
           split; [|discriminate].
           cbn [set_commit_loop]. unfold py_hash160hex at 1. rewrite Eh.
           rewrite (bind_ret _ _ _ rh p eq_refl), String.eqb_refl.
           unfold commits_requested_remove, bind at 1 2, get. rewrite Er.
           reflexivity.
      * rewrite (set_commit_loop_miss _ _ _ _ _ _ _ Eh (not_eq_sym Hne)).
        destruct IH as [IH|(s & req & Hin & IH)]; [now left|].
        right. exists s, req. cbn. auto.
    + left. exists (Raise BinasciiError). split; [|discriminate].
      cbn [set_commit_loop]. unfold py_hash160hex at 1. now rewrite Eh.
Qed.

Lemma set_commit_cases tx script_hex p :
  (exists out, set_commit tx script_hex p = (out, p)
               /\ forall amount, out <> Ret (Some amount))
  \/ (exists scr secret requested',
        h2b script_hex = Some scr
        /\ passes_commit_validation tx scr p
        /\ In secret (commits_requested p)
        /\ hash160hex secret = Some (get_commit_revoke_secret_hash scr)
        /\ list_remove secret (commits_requested p) = Some requested'
        /\ set_commit tx script_hex p
           = (Ret (Some (get_quantity tx)),
              accepted tx script_hex secret requested' p)).
Proof.
  destruct (set_commit_validation_cases tx script_hex p)
    as [[e E]|(scr & Escr & Hv & E)].
  - left. exists (Raise e). split; [exact E|discriminate].
  - rewrite E.
    destruct (set_commit_loop_cases tx script_hex
                (get_commit_revoke_secret_hash scr) (commits_requested p) p)
      as [Hno|(secret & req & Hin & Eh & Er & El)]; [now left|].
    right. exists scr, secret, req. auto 7.
Qed.

(** X6: [set_commit] accepts only what it has checked: whenever it returns
    an amount, the transaction had exactly one bad signature, the script
    decodes and embeds the channel's own spend-secret hash and payee public
    key, and the revoke secret stored with the new commit was a pending
    request whose hash is the revoke-secret hash of the script; that one
    request is taken out of [commits_requested], and the active commits are
    the former ones and the new one. *)
Theorem set_commit_only_validated tx script_hex p amount p' :
  set_commit tx script_hex p = (Ret (Some amount), p') ->
  exists scr secret,
    h2b script_hex = Some scr
    /\ passes_commit_validation tx scr p
    /\ In secret (commits_requested p)
    /\ hash160hex secret = Some (get_commit_revoke_secret_hash scr)
    /\ Permutation (commits_requested p) (secret :: commits_requested p')
    /\ Permutation (commits_active p')
         (mkCommit tx script_hex secret :: commits_active p).
Proof.
  intros E.
  destruct (set_commit_cases tx script_hex p)
    as [(out & E' & Hno)|(scr & secret & req & Escr & Hv & Hin & Eh & Er & E')];
    rewrite E' in E.
  - injection E as E _. now apply Hno in E.
  - injection E as _ <-. exists scr, secret. cbn.
    repeat (split; [assumption|]). split.
    + now apply list_remove_perm.
    + rewrite (sort_commits_perm (commits_active p)).
      symmetry. apply Permutation_cons_append.
Qed.

(** X7: a [set_commit] that does not accept the commit, because it returns
    [None] or because it raises in its validations or while it hashes the
    pending secrets, leaves the whole channel as it was; these are all the
    ways it can raise as long as the adapter answers the quantity queries
    that ordering and reading the transferred amount make after the request
    is consumed.  And no [set_commit] touches the keys, the spend secret,
    the deposit, the revoked commits or the recorded payouts. *)
Theorem set_commit_touches_only_commits tx script_hex p out p' :
  set_commit tx script_hex p = (out, p') ->
  ((forall amount, out <> Ret (Some amount)) -> p' = p)
  /\ payer_wif p' = payer_wif p
  /\ payee_wif p' = payee_wif p
  /\ spend_secret p' = spend_secret p
  /\ deposit_rawtx p' = deposit_rawtx p
  /\ deposit_script_hex p' = deposit_script_hex p
  /\ commits_revoked p' = commits_revoked p
  /\ payout_rawtxs p' = payout_rawtxs p.
Proof.
  intros E.
  destruct (set_commit_cases tx script_hex p)
    as [(out' & E' & Hno)|(scr & secret & req & _ & _ & _ & _ & _ & E')];
    rewrite E' in E; injection E as <- <-.
  - repeat split.
  - split; [|repeat split]. intros Hno. now specialize (Hno (get_quantity tx)).
Qed.

Lemma request_commit_cases quantity entropy p :
  (exists e, request_commit quantity entropy p = (Raise e, p))
  \/ request_commit quantity entropy p
     = (Ret (quantity, b2h (hash160 entropy)),
        set_commits_requested (commits_requested p ++ [b2h entropy]) p).
Proof.
  unfold request_commit, _validate_transfer_quantity, get_transferred_amount,
    py_hash160hex.
  rewrite hash160hex_b2h. unfold bind, get, ret, modify, raise.
  destruct ((0 <=? quantity)
            && (last (map quantity_of (commits_active p)) 0 <=? quantity));
    [right; reflexivity|left; eauto].
Qed.

(** X8: [request_commit] either raises and leaves the channel as it was, or
    returns the quantity it was given together with the hash of a new
    secret, and appends that secret, and nothing else, at the end of
    [commits_requested]. *)
Theorem request_commit_appends_secret quantity entropy p out p' :
  request_commit quantity entropy p = (out, p') ->
  (exists e, out = Raise e /\ p' = p)
  \/ (exists secret secret_hash,
        out = Ret (quantity, secret_hash)
        /\ hash160hex secret = Some secret_hash
        /\ commits_requested p' = commits_requested p ++ [secret]
        /\ p' = set_commits_requested (commits_requested p ++ [secret]) p).
Proof.
  intros E. destruct (request_commit_cases quantity entropy p) as [[e E']|E'];
    rewrite E' in E; injection E as <- <-.
  - left. eauto.
  - right. exists (b2h entropy), (b2h (hash160 entropy)).
    repeat split. apply hash160hex_b2h.
Qed.

(** ** close_channel *)

Lemma sort_commits_length l : List.length (sort_commits l) = List.length l.
Proof. apply Permutation_length, sort_commits_perm. Qed.

Lemma own_deposit_script_run p h scr :
  deposit_script_hex p = Some h -> h2b h = Some scr ->
  own_deposit_script p = (Ret scr, p).
Proof.
  intros Eh Es. unfold own_deposit_script, bind, get. rewrite Eh. cbn.
  now apply py_h2b_run.
Qed.

Lemma own_deposit_script_fails p :
  deposit_script_hex p = None
  \/ (exists h, deposit_script_hex p = Some h /\ h2b h = None) ->
  exists e, own_deposit_script p = (Raise e, p).
Proof.
  unfold own_deposit_script, bind, get.
  intros [E|(h & E & Eh)]; rewrite E.
  - now exists TypeError.
  - exists BinasciiError. cbn. unfold py_h2b. now rewrite Eh.
Qed.

(** The beginning of [close_channel] on a channel with active commits: the
    commits are ordered and the last one is picked. *)
Lemma close_channel_picks_last p :
  commits_active p <> [] ->
  exists front c,
    sort_commits (commits_active p) = front ++ [c]
    /\ close_channel p
       = bind own_deposit_script
           (fun deposit_script =>
              let tx := finalize_commit (payee_wif p) (rawtx c) deposit_script in
              bind (modify (set_commits_active (front ++ [set_rawtx tx c])))
                (fun _ => ret (gettxid tx)))
           (set_commits_active (sort_commits (commits_active p)) p).
Proof.
  intros Hne.
  assert (sort_commits (commits_active p) <> []) as Hs.
  { intros E. apply Hne. apply length_zero_iff_nil.
    now rewrite <- sort_commits_length, E. }
  destruct (exists_last Hs) as (front & c & E).
  exists front, c. split; [exact E|].
  unfold close_channel, bind at 1, get.
  destruct (commits_active p) as [|c0 l0] eqn:Ea; [contradiction|].
  cbn [List.length Nat.ltb Nat.leb assert].
  rewrite (bind_ret _ _ _ tt p eq_refl).
  unfold _order_active, bind at 1, modify. rewrite Ea.
  unfold bind at 1, get. cbn [commits_active set_commits_active payee_wif].
  rewrite E, rev_app_distr. cbn [rev app]. now rewrite rev_involutive.
Qed.

(** [close_channel] on a channel without active commits fails its
    assertion and leaves the channel as it was. *)
Lemma close_channel_needs_commit p :
  commits_active p = [] -> close_channel p = (Raise AssertionError, p).
Proof.
  intros E. unfold close_channel, bind at 1, get. now rewrite E.
Qed.

(** X9: on a channel with active commits and a deposit script that
    decodes, [close_channel] finalizes a commit of the highest quantity and
    returns the id of the finalized transaction; it leaves the active
    commits ordered, the finalized one last, with the
    transaction of that one commit replaced and everything else, scripts and
    revoke secrets included, as it was. *)
Theorem close_channel_finalizes_highest p h deposit_script :
  commits_active p <> [] ->
  deposit_script_hex p = Some h -> h2b h = Some deposit_script ->
  exists front c,
    sort_commits (commits_active p) = front ++ [c]
    /\ In c (commits_active p)
    /\ Forall (fun d => quantity_of d <= quantity_of c) (commits_active p)
    /\ let tx := finalize_commit (payee_wif p) (rawtx c) deposit_script in
       close_channel p
       = (Ret (gettxid tx),
          set_commits_active (front ++ [set_rawtx tx c]) p).
Proof.
  intros Hne Eh Es.
  destruct (close_channel_picks_last p Hne) as (front & c & E & Erun).
  exists front, c. split; [exact E|].
  assert (Permutation (front ++ [c]) (commits_active p)) as Hp
    by (rewrite <- E; apply sort_commits_perm).
  split; [|split].
  - eapply Permutation_in; [exact Hp|]. apply in_or_app. right. now left.
  - eapply Permutation_Forall; [exact Hp|].
    rewrite Forall_app. split; [|repeat constructor; lia].
    apply strongly_sorted_snoc. rewrite <- E. apply sort_commits_sorted.
  - cbn zeta. rewrite Erun.
    erewrite bind_ret
      by (apply own_deposit_script_run with (h := h); [exact Eh|exact Es]).
    reflexivity.
Qed.

(** X10: when the deposit script is not set or does not decode,
    [close_channel] on a channel with active commits raises without
    finalizing anything; the only trace it leaves is that the active commits
    are ordered. *)
Theorem close_channel_without_deposit p :
  commits_active p <> [] ->
  deposit_script_hex p = None
  \/ (exists h, deposit_script_hex p = Some h /\ h2b h = None) ->
  exists e,
    close_channel p
    = (Raise e, set_commits_active (sort_commits (commits_active p)) p).
Proof.
  intros Hne Hdep.
  destruct (close_channel_picks_last p Hne) as (front & c & _ & Erun).
  destruct (own_deposit_script_fails
              (set_commits_active (sort_commits (commits_active p)) p) Hdep)
    as (e & Ee).
  exists e. rewrite Erun. now apply bind_raise.
Qed.

(** ** payout_recover, get_payout_recoverable and update *)

Lemma set_payout_rawtxs_same p : set_payout_rawtxs (payout_rawtxs p) p = p.
Proof. now destruct p. Qed.

Lemma payout_recover_run scripts : forall p,
  payout_recover scripts p
  = (Ret tt, set_payout_rawtxs (payout_rawtxs p ++ payouts_for p scripts) p).
Proof.
  induction scripts as [|s rest IH]; intros p.
  - cbn. now rewrite app_nil_r, set_payout_rawtxs_same.
  - cbn [payout_recover]. unfold bind at 1, get. unfold bind at 1, modify.
    rewrite IH. cbn. now rewrite <- app_assoc.
Qed.

(** X11: [payout_recover] always returns; it appends to [payout_rawtxs]
    one recovery transaction per script, in the order of the scripts, each
    built from the payee key and the spend secret of the channel, and
    changes nothing else. *)
Theorem payout_recover_records scripts p :
  exists p',
    payout_recover scripts p = (Ret tt, p')
    /\ payout_rawtxs p'
       = payout_rawtxs p
         ++ map (fun s => control_payout_recover (payee_wif p) s (spend_secret p))
              scripts
    /\ List.length (payout_rawtxs p')
       = (List.length (payout_rawtxs p) + List.length scripts)%nat
    /\ p' = set_payout_rawtxs (payout_rawtxs p') p.
Proof.
  eexists. split; [apply payout_recover_run|]. cbn.
  split; [reflexivity|]. split; [|reflexivity].
  unfold payouts_for. now rewrite length_app, length_map.
Qed.

Lemma utxo_loop_run scr delay utxos : forall scripts,
  utxo_loop scr delay utxos scripts
  = scripts
    ++ map (fun _ => scr)
         (filter (fun utxo => confirms (txid utxo) >=? delay) utxos).
Proof.
  induction utxos as [|u rest IH]; intros scripts; cbn.
  - now rewrite app_nil_r.
  - destruct (confirms (txid u) >=? delay); rewrite IH; [|reflexivity].
    cbn. now rewrite <- app_assoc.
Qed.

Lemma recoverable_loop_run commits p :
  Forall (fun c => h2b (script c) <> None) commits ->
  forall scripts,
    recoverable_loop commits scripts p
    = (Ret (scripts ++ flat_map recoverable_of commits), p).
Proof.
  induction 1 as [|c rest Hc _ IH]; intros scripts.
  - cbn. now rewrite app_nil_r.
  - cbn [recoverable_loop flat_map]. unfold recoverable_of at 1.
    destruct (h2b (script c)) as [scr|] eqn:Ec; [|contradiction].
    rewrite (bind_ret _ _ _ _ _ (py_h2b_run _ _ p Ec)).
    destruct (_commit_spent c); [apply IH|].
    destruct (can_spend_from_address _); [|apply IH].
    now rewrite IH, utxo_loop_run, <- app_assoc.
Qed.

Lemma recoverable_loop_keeps commits p :
  forall scripts, snd (recoverable_loop commits scripts p) = p.
Proof.
  induction commits as [|c rest IH]; intros scripts; [reflexivity|].
  cbn [recoverable_loop]. unfold bind, py_h2b.
  destruct (h2b (script c)) as [scr|]; [|reflexivity].
  unfold ret. destruct (_commit_spent c); [apply IH|].
  destruct (can_spend_from_address (script2address scr netcode)); apply IH.
Qed.

Lemma get_payout_recoverable_run p :
  Forall (fun c => h2b (script c) <> None)
    (commits_active p ++ commits_revoked p) ->
  get_payout_recoverable p
  = (Ret (flat_map recoverable_of (commits_active p ++ commits_revoked p)), p).
Proof.
  intros Hhex. unfold get_payout_recoverable, bind, get.
  now rewrite recoverable_loop_run.
Qed.

(** X12: [get_payout_recoverable] collects the script of a commit once for
    every UTXO that is deep enough: on a channel whose stored scripts
    decode, the result is, commit after commit through the active and then
    the revoked ones, nothing for a commit that is reported spent or whose
    address is not spendable, and otherwise one copy of its script per UTXO
    with at least the script's delay in confirmations. *)
Theorem get_payout_recoverable_per_utxo p :
  Forall (fun c => h2b (script c) <> None)
    (commits_active p ++ commits_revoked p) ->
  get_payout_recoverable p
  = (Ret (flat_map recoverable_of (commits_active p ++ commits_revoked p)), p)
  /\ forall c scr,
       h2b (script c) = Some scr ->
       recoverable_of c
       = if _commit_spent c
            || negb (can_spend_from_address (script2address scr netcode))
         then []
         else repeat scr
                (List.length
                   (filter (fun utxo => confirms (txid utxo)
                                        >=? get_commit_delay_time scr)
                      (retrieve_utxos [script2address scr netcode]))).
Proof.
  intros Hhex. split; [now apply get_payout_recoverable_run|].
  intros c scr Ec. unfold recoverable_of. rewrite Ec.
  destruct (_commit_spent c); [reflexivity|].
  destruct (can_spend_from_address _); [|reflexivity]. cbn.
  induction (filter _ _) as [|u l IH]; cbn; [reflexivity|]. now rewrite IH.
Qed.

Lemma recoverable_of_spent commits :
  Forall (fun c => _commit_spent c = true) commits ->
  flat_map recoverable_of commits = [].
Proof.
  induction 1 as [|c l Hc _ IH]; [reflexivity|].
  cbn. rewrite IH. unfold recoverable_of. rewrite Hc.
  now destruct (h2b (script c)).
Qed.

Lemma update_run p :
  Forall (fun c => h2b (script c) <> None)
    (commits_active p ++ commits_revoked p) ->
  update p
  = (Ret tt,
     set_payout_rawtxs
       (payout_rawtxs p
        ++ payouts_for p
             (flat_map recoverable_of (commits_active p ++ commits_revoked p)))
       p).
Proof.
  intros Hhex. unfold update.
  rewrite (bind_ret _ _ _ _ _ (get_payout_recoverable_run p Hhex)).
  destruct (flat_map recoverable_of _) as [|s l].
  - cbn. now rewrite app_nil_r, set_payout_rawtxs_same.
  - cbn [List.length Nat.ltb Nat.leb]. apply payout_recover_run.
Qed.

(** X13: on a channel whose stored scripts decode, [update] returns and
    records one recovery transaction for every script that
    [get_payout_recoverable] collects, in that order; it changes nothing but
    [payout_rawtxs], and nothing at all when no script is collected, as when
    every commit is reported spent. *)
Theorem update_records_recoverable p :
  Forall (fun c => h2b (script c) <> None)
    (commits_active p ++ commits_revoked p) ->
  exists scripts p',
    get_payout_recoverable p = (Ret scripts, p)
    /\ update p = (Ret tt, p')
    /\ payout_rawtxs p'
       = payout_rawtxs p
         ++ map (fun s => control_payout_recover (payee_wif p) s (spend_secret p))
              scripts
    /\ p' = set_payout_rawtxs (payout_rawtxs p') p
    /\ (scripts = [] -> p' = p)
    /\ (Forall (fun c => _commit_spent c = true)
          (commits_active p ++ commits_revoked p) -> scripts = []).
Proof.
  intros Hhex.
  exists (flat_map recoverable_of (commits_active p ++ commits_revoked p)).
  eexists. split; [now apply get_payout_recoverable_run|].
  split; [now apply update_run|]. cbn. repeat split.
  - intros ->. cbn. now rewrite app_nil_r, set_payout_rawtxs_same.
  - apply recoverable_of_spent.
Qed.

(** X14: [update] keeps no record of what it has recovered: called again
    while the adapter still gives the same answers, it records the same
    recovery transactions a second time. *)
Theorem update_twice_records_twice p :
  Forall (fun c => h2b (script c) <> None)
    (commits_active p ++ commits_revoked p) ->
  exists scripts p1 p2,
    get_payout_recoverable p = (Ret scripts, p)
    /\ update p = (Ret tt, p1)
    /\ update p1 = (Ret tt, p2)
    /\ payout_rawtxs p2
       = payout_rawtxs p ++ payouts_for p scripts ++ payouts_for p scripts.
Proof.
  intros Hhex.
  exists (flat_map recoverable_of (commits_active p ++ commits_revoked p)).
  eexists. eexists. split; [now apply get_payout_recoverable_run|].
  split; [now apply update_run|]. split.
  - apply update_run. exact Hhex.
  - cbn. now rewrite <- app_assoc.
Qed.

(** ** revoke_until *)

Lemma take_commit_perm secret l c rest :
  take_commit secret l = Some (c, rest) ->
  Permutation l (c :: rest) /\ revoke_secret c = secret.
Proof.
  revert c rest. induction l as [|d l' IH]; cbn; intros c rest;
    [discriminate|].
  destruct (String.eqb_spec (revoke_secret d) secret) as [E|_].
  - intros [= <- <-]. split; [reflexivity|exact E].
  - destruct (take_commit secret l') as [[e r]|]; [|discriminate].
    intros [= <- <-]. destruct (IH e r eq_refl) as [Hp Hs].
    split; [|exact Hs]. rewrite Hp. apply perm_swap.
Qed.

Lemma set_commits_same p :
  set_commits_revoked (commits_revoked p ++ [])
    (set_commits_active (commits_active p) p) = p.
Proof. destruct p; cbn. now rewrite app_nil_r. Qed.

(** [revoke_all] only moves commits, from the active list to the end of the
    revoked list. *)
Lemma revoke_all_moves secrets : forall p,
  exists rest moved,
    revoke_all secrets p
    = (Ret tt, set_commits_revoked (commits_revoked p ++ moved)
                 (set_commits_active rest p))
    /\ Permutation (commits_active p) (rest ++ moved).
Proof.
  induction secrets as [|s secrets' IH]; intros p.
  - exists (commits_active p), []. split.
    + cbn. now rewrite set_commits_same.
    + now rewrite app_nil_r.
  - cbn [revoke_all]. unfold bind at 1, revoke at 1, modify.
    destruct (take_commit s (commits_active p)) as [[c r]|] eqn:Et.
    + destruct (IH (set_commits_revoked (commits_revoked p ++ [c])
                      (set_commits_active r p)))
        as (rest & moved & E & Hp).
      exists rest, (c :: moved). split.
      * rewrite E. cbn. now rewrite <- app_assoc.
      * apply take_commit_perm in Et. destruct Et as [Ht _].
        rewrite Ht. cbn in Hp. rewrite Hp. apply Permutation_middle.
    + apply IH.
Qed.

Lemma revoke_until_moves q p :
  exists secrets rest moved,
    revoke_until q p
    = (Ret secrets, set_commits_revoked (commits_revoked p ++ moved)
                      (set_commits_active rest p))
    /\ Permutation (commits_active p) (rest ++ moved).
Proof.
  unfold revoke_until, _order_active, bind at 1, modify.
  unfold bind at 1, get.
  set (p1 := set_commits_active (sort_commits (commits_active p)) p).
  set (secrets := revoke_scan q (rev (commits_active p1))).
  destruct (revoke_all_moves secrets p1) as (rest & moved & E & Hp).
  exists secrets, rest, moved. split.
  - rewrite (bind_ret _ _ _ _ _ E). reflexivity.
  - rewrite <- Hp. cbn. symmetry. apply sort_commits_perm.
Qed.

(** X15: [revoke_until] always returns, and it loses and invents no
    commit: the commits it takes out of the active list are appended to the
    revoked list, the commits revoked before stay where they were, and the
    requests, the keys, the deposit and the payouts are untouched. *)
Theorem revoke_until_conserves_commits q p :
  exists secrets p' moved,
    revoke_until q p = (Ret secrets, p')
    /\ commits_revoked p' = commits_revoked p ++ moved
    /\ Permutation (commits_active p) (commits_active p' ++ moved)
    /\ p' = set_commits_revoked (commits_revoked p')
              (set_commits_active (commits_active p') p).
Proof.
  destruct (revoke_until_moves q p) as (secrets & rest & moved & E & Hp).
  eexists secrets, _, moved. split; [exact E|]. cbn. auto.
Qed.

Lemma strongly_sorted_filter (f : Commit -> bool) l :
  StronglySorted by_quantity l -> StronglySorted by_quantity (filter f l).
Proof.
  induction 1 as [|c rest Hs IH Hc]; cbn; [constructor|].
  destruct (f c); [|exact IH]. constructor; [exact IH|].
  rewrite Forall_forall in *. intros d Hd. apply Hc.
  now apply filter_In in Hd.
Qed.

(** What [revoke_until] does when the active commits carry pairwise
    distinct revoke secrets. *)
Lemma revoke_until_distinct q p :
  NoDup (map revoke_secret (commits_active p)) ->
  revoke_until q p
  = (Ret (map revoke_secret
            (rev (filter (fun c => q <? quantity_of c)
                    (sort_commits (commits_active p))))),
     set_commits_revoked
       (commits_revoked p
        ++ rev (filter (fun c => q <? quantity_of c)
                  (sort_commits (commits_active p))))
       (set_commits_active
          (filter (fun c => quantity_of c <=? q)
             (sort_commits (commits_active p))) p)).
Proof.
  intros Hnd.
  pose proof (sort_commits_sorted (commits_active p)) as Hs.
  unfold revoke_until, _order_active, bind at 1, modify.
  unfold bind at 1, get. cbn [commits_active set_commits_active].
  rewrite (revoke_scan_ordered q _ Hs).
  erewrite bind_ret; [reflexivity|].
  rewrite (revoke_all_upper_end _
             (filter (fun c => quantity_of c <=? q)
                (sort_commits (commits_active p)))).
  - reflexivity.
  - cbn. apply ordered_split, Hs.
  - rewrite <- ordered_split by exact Hs.
    eapply Permutation_NoDup; [|exact Hnd].
    apply Permutation_map. symmetry. apply sort_commits_perm.
Qed.

(** X16: when the active commits carry pairwise distinct revoke secrets,
    [revoke_until q] leaves an active list that is ascending and holds no
    commit above [q], and calling it again with the same [q] discloses
    nothing and changes nothing. *)
Theorem revoke_until_twice q p secrets p' :
  NoDup (map revoke_secret (commits_active p)) ->
  revoke_until q p = (Ret secrets, p') ->
  ascending (commits_active p')
  /\ Forall (fun c => quantity_of c <= q) (commits_active p')
  /\ revoke_until q p' = (Ret [], p').
Proof.
  intros Hnd E. rewrite (revoke_until_distinct q p Hnd) in E.
  injection E as _ <-.
  set (keep := filter (fun c => quantity_of c <=? q)
                 (sort_commits (commits_active p))).
  assert (Hsorted : StronglySorted by_quantity keep)
    by apply strongly_sorted_filter, sort_commits_sorted.
  assert (Hle : Forall (fun c => quantity_of c <= q) keep).
  { apply Forall_forall. intros c Hc. apply filter_In in Hc.
    now apply Z.leb_le. }
  cbn [commits_active set_commits_active set_commits_revoked].
  split; [now apply ascending_strongly|]. split; [exact Hle|].
  rewrite revoke_until_distinct.
  - cbn [commits_active set_commits_active set_commits_revoked
           commits_revoked].
    fold keep. rewrite (sort_commits_fixed keep Hsorted).
    rewrite (filter_none (fun c => q <? quantity_of c) keep).
    + rewrite (filter_all (fun c => quantity_of c <=? q) keep).
      * cbn. now rewrite app_nil_r.
      * eapply Forall_impl; [|exact Hle]. intros c. apply Z.leb_le.
    + eapply Forall_impl; [|exact Hle]. intros c. apply Z.ltb_ge.
  - cbn. fold keep.
    assert (NoDup (map revoke_secret (sort_commits (commits_active p)))) as Hn
      by (eapply Permutation_NoDup; [|exact Hnd];
          apply Permutation_map; symmetry; apply sort_commits_perm).
    rewrite (ordered_split q _ (sort_commits_sorted (commits_active p))) in Hn.
    rewrite map_app in Hn. now apply NoDup_app_remove_r in Hn.
Qed.

(** ** Sessions *)

Lemma Forall_self_script (l : list Commit) :
  Forall (fun c' => (exists c0, In c0 l /\ script c' = script c0)
                    \/ h2b (script c') <> None) l.
Proof. apply Forall_forall. intros c Hc. left. eauto. Qed.

Lemma Forall_self_request (l : list string) :
  Forall (fun s => In s l \/ hash160hex s <> None) l.
Proof. apply Forall_forall. intros x Hx. now left. Qed.

(** A call that leaves the commits and the requests alone. *)
Lemma evolves_same_lists c p p' :
  payer_wif p' = payer_wif p -> payee_wif p' = payee_wif p ->
  spend_secret p' = spend_secret p ->
  (deposit_rawtx p' = deposit_rawtx p \/ deposit_rawtx p = None) ->
  (deposit_script_hex p' = deposit_script_hex p
   \/ deposit_script_hex p = None) ->
  commits_requested p' = commits_requested p ->
  commits_active p' = commits_active p ->
  commits_revoked p' = commits_revoked p ->
  evolves c p p'.
Proof.
  intros E1 E2 E3 D1 D2 Er Ea Ev. unfold evolves.
  repeat (split; [assumption|]). exists [].
  rewrite Er, Ea, Ev, !app_nil_r. split; [reflexivity|].
  split; [apply Forall_self_script|]. split; [apply Forall_self_request|].
  now left.
Qed.

Lemma evolves_refl c p : evolves c p p.
Proof. apply evolves_same_lists; auto. Qed.

Lemma own_deposit_script_cases p :
  (exists e, own_deposit_script p = (Raise e, p))
  \/ (exists scr, own_deposit_script p = (Ret scr, p)).
Proof.
  unfold own_deposit_script, bind, get.
  destruct (deposit_script_hex p) as [h|]; cbn;
    [|left; now exists TypeError].
  unfold py_h2b. destruct (h2b h) as [scr|].
  - right. now exists scr.
  - left. now exists BinasciiError.
Qed.

Lemma update_shape p :
  exists payouts, snd (update p) = set_payout_rawtxs payouts p.
Proof.
  unfold update, bind.
  pose proof (recoverable_loop_keeps
                (commits_active p ++ commits_revoked p) p []) as K.
  unfold get_payout_recoverable, bind at 1, get.
  destruct (recoverable_loop _ [] p) as [[scripts|e] p1]; cbn in K; subst p1.
  - destruct (Nat.ltb 0 (List.length scripts)).
    + rewrite payout_recover_run. cbn. eauto.
    + exists (payout_rawtxs p). cbn. now rewrite set_payout_rawtxs_same.
  - exists (payout_rawtxs p). cbn. now rewrite set_payout_rawtxs_same.
Qed.

Lemma payout_confirmed_keeps v p : snd (payout_confirmed v p) = p.
Proof.
  unfold payout_confirmed, validate_unsigned, bind, get.
  destruct (unsigned v); [reflexivity|].
  now destruct v.
Qed.

Lemma close_channel_shape p :
  snd (close_channel p) = p
  \/ exists front c tx,
       sort_commits (commits_active p) = front ++ [c]
       /\ (snd (close_channel p)
           = set_commits_active (front ++ [c]) p
           \/ snd (close_channel p)
              = set_commits_active (front ++ [set_rawtx tx c]) p).
Proof.
  destruct (commits_active p) as [|c0 l0] eqn:Ea.
  - left. unfold close_channel, bind at 1, get. now rewrite Ea.
  - right.
    destruct (close_channel_picks_last p) as (front & c & E & Erun);
      [rewrite Ea; discriminate|].
    rewrite Ea in E. rewrite Ea in Erun. rewrite Erun, E.
    set (p1 := set_commits_active (front ++ [c]) p).
    destruct (own_deposit_script_cases p1) as [[e Ee]|[scr Es]].
    + exists front, c, "". split; [reflexivity|]. left.
      now rewrite (bind_raise _ _ _ _ _ Ee).
    + exists front, c, (finalize_commit (payee_wif p) (rawtx c) scr).
      split; [reflexivity|]. right.
      now rewrite (bind_ret _ _ _ _ _ Es).
Qed.

(** Every call other than [setup] changes the channel within [evolves]. *)
Lemma after_evolves c p : is_setup c = false -> evolves c p (after c p).
Proof.
  destruct c as [wif secret|tx sh|q e|tx sh|q| | | |scripts|v]; cbn [after];
    intros Hc; [discriminate|..].
  - (* set_deposit *)
    destruct (set_deposit_cases tx sh p) as [[e E]|(Hun & _ & E)]; rewrite E;
      cbn [snd]; [apply evolves_refl|].
    destruct (assert_unopen_state_inv _ _ _ Hun)
      as (_ & _ & _ & _ & Hraw & Hhex & _).
    apply evolves_same_lists; auto.
  - (* request_commit *)
    destruct (request_commit_cases q e p) as [[err E]|E]; rewrite E; cbn [snd];
      [apply evolves_refl|].
    unfold evolves. cbn. repeat (split; [auto|]). exists [].
    rewrite !app_nil_r. split; [reflexivity|].
    split; [apply Forall_self_script|]. split.
    + rewrite Forall_app. split.
      * apply Forall_self_request.
      * constructor; [|constructor]. right. rewrite hash160hex_b2h.
        discriminate.
    + right. exists q, e. auto.
  - (* set_commit *)
    destruct (set_commit_cases tx sh p)
      as [(out & E & _)|(scr & secret & req & Escr & _ & _ & _ & Er & E)];
      rewrite E; cbn [snd]; [apply evolves_refl|].
    apply list_remove_perm in Er.
    unfold evolves. cbn. repeat (split; [auto|]). exists [].
    rewrite !app_nil_r. split; [reflexivity|]. split; [|split].
    + rewrite Forall_app. split.
      * apply Forall_forall. intros c Hin. left. exists c.
        split; [|reflexivity].
        eapply Permutation_in; [apply sort_commits_perm|exact Hin].
      * constructor; [|constructor]. right. cbn. rewrite Escr.
        discriminate.
    + apply Forall_forall. intros x Hx. left.
      eapply Permutation_in; [symmetry; exact Er|now right].
    + left. rewrite map_app. cbn [map revoke_secret].
      rewrite Er, (Permutation_map revoke_secret
                     (sort_commits_perm (commits_active p))).
      rewrite app_assoc. rewrite <- Permutation_cons_append.
      rewrite (Permutation_app_comm req). cbn.
      constructor. apply Permutation_app_comm.
  - (* revoke_until *)
    destruct (revoke_until_moves q p) as (secrets & rest & moved & E & Hp).
    rewrite E. cbn [snd]. unfold evolves. cbn.
    repeat (split; [auto|]). exists moved. split; [reflexivity|].
    split; [|split].
    + apply Forall_forall. intros c Hin. left. exists c.
      split; [|reflexivity].
      eapply Permutation_in; [symmetry; exact Hp|exact Hin].
    + apply Forall_self_request.
    + left. now rewrite <- Hp.
  - (* close_channel *)
    destruct (close_channel_shape p)
      as [E|(front & c & tx & Es & [E|E])]; rewrite E;
      [apply evolves_refl|..];
      unfold evolves; cbn; repeat (split; [auto|]); exists [];
      rewrite !app_nil_r; (split; [reflexivity|]);
      (split; [|split; [apply Forall_self_request|left]]).
    + apply Forall_forall. intros d Hin. left. exists d.
      split; [|reflexivity].
      eapply Permutation_in; [apply sort_commits_perm|].
      now rewrite Es.
    + rewrite <- Es.
      now rewrite (Permutation_map revoke_secret
                     (sort_commits_perm (commits_active p))).
    + apply Forall_forall. intros d Hin. left.
      apply in_app_or in Hin. destruct Hin as [Hin|[<-|[]]].
      * exists d. split; [|reflexivity].
        eapply Permutation_in; [apply sort_commits_perm|].
        rewrite Es. apply in_or_app. now left.
      * exists c. split; [|reflexivity].
        eapply Permutation_in; [apply sort_commits_perm|].
        rewrite Es. apply in_or_app. right. now left.
    + replace (map revoke_secret (front ++ [set_rawtx tx c]))
        with (map revoke_secret (front ++ [c]))
        by (now rewrite !map_app).
      rewrite <- Es.
      now rewrite (Permutation_map revoke_secret
                     (sort_commits_perm (commits_active p))).
  - (* update *)
    destruct (update_shape p) as [payouts E]. rewrite E.
    apply evolves_same_lists; auto.
  - (* get_payout_recoverable *)
    unfold get_payout_recoverable, bind, get.
    rewrite recoverable_loop_keeps. apply evolves_refl.
  - (* payout_recover *)
    rewrite payout_recover_run. apply evolves_same_lists; auto.
  - (* payout_confirmed *)
    rewrite payout_confirmed_keeps. apply evolves_refl.
Qed.

Lemma after_all_frame calls : forall p,
  no_setup calls ->
  payer_wif (after_all calls p) = payer_wif p
  /\ payee_wif (after_all calls p) = payee_wif p
  /\ spend_secret (after_all calls p) = spend_secret p
  /\ (deposit_rawtx p <> None ->
      deposit_rawtx (after_all calls p) = deposit_rawtx p)
  /\ (deposit_script_hex p <> None ->
      deposit_script_hex (after_all calls p) = deposit_script_hex p)
  /\ exists more,
       commits_revoked (after_all calls p) = commits_revoked p ++ more.
Proof.
  induction calls as [|c rest IH]; intros p Hno.
  - cbn. repeat split. exists []. now rewrite app_nil_r.
  - inversion Hno as [|? ? Hc Hrest]; subst. cbn [after_all].
    destruct (after_evolves c p Hc)
      as (E1 & E2 & E3 & D1 & D2 & moved & Ev & _).
    destruct (IH (after c p) Hrest)
      as (F1 & F2 & F3 & G1 & G2 & more & Fv).
    rewrite F1, F2, F3, E1, E2, E3. repeat split.
    + intros Hd. destruct D1 as [D1|D1]; [|contradiction].
      rewrite G1; [exact D1|]. now rewrite D1.
    + intros Hd. destruct D2 as [D2|D2]; [|contradiction].
      rewrite G2; [exact D2|]. now rewrite D2.
    + exists (moved ++ more). now rewrite Fv, Ev, app_assoc.
Qed.

(** X17: no sequence of calls without [setup] changes the payee key, the
    payer key or the spend secret of the channel, whatever the calls return
    or raise. *)
Theorem session_keeps_keys calls p :
  no_setup calls ->
  payee_wif (after_all calls p) = payee_wif p
  /\ payer_wif (after_all calls p) = payer_wif p
  /\ spend_secret (after_all calls p) = spend_secret p.
Proof.
  intros Hno. destruct (after_all_frame calls p Hno) as (E1 & E2 & E3 & _).
  auto.
Qed.

(** X18: a deposit is immutable: once the channel holds a deposit
    transaction or a deposit script, no sequence of calls without [setup]
    replaces or clears it. *)
Theorem deposit_is_immutable calls p :
  no_setup calls ->
  (deposit_rawtx p <> None ->
   deposit_rawtx (after_all calls p) = deposit_rawtx p)
  /\ (deposit_script_hex p <> None ->
      deposit_script_hex (after_all calls p) = deposit_script_hex p).
Proof.
  intros Hno.
  destruct (after_all_frame calls p Hno) as (_ & _ & _ & D1 & D2 & _). auto.
Qed.

(** X19: a revoked commit stays revoked: through every sequence of calls
    without [setup], [commits_revoked] keeps its entries in place and only
    grows at its end. *)
Theorem revoked_stay_revoked calls p :
  no_setup calls ->
  exists more,
    commits_revoked (after_all calls p) = commits_revoked p ++ more.
Proof.
  intros Hno.
  destruct (after_all_frame calls p Hno) as (_ & _ & _ & _ & _ & Hv).
  exact Hv.
Qed.

Lemma after_well_formed c p : well_formed p -> well_formed (after c p).
Proof.
  intros [Hs Hr]. destruct (is_setup c) eqn:Hc.
  - destruct c; try discriminate. cbn [after]. rewrite setup_run.
    split; constructor.
  - destruct (after_evolves c p Hc)
      as (_ & _ & _ & _ & _ & moved & Ev & Hscripts & Hreq & _).
    rewrite Forall_app in Hs. destruct Hs as [Ha Hv].
    rewrite Forall_app in Hscripts. destruct Hscripts as [Ha' Hm].
    assert (Hkeep : forall c', ((exists c0, In c0 (commits_active p)
                                            /\ script c' = script c0)
                                \/ h2b (script c') <> None) ->
                               h2b (script c') <> None).
    { intros c' [(c0 & Hin & ->)|Hd]; [|exact Hd].
      rewrite Forall_forall in Ha. now apply Ha. }
    split.
    + rewrite Ev, !Forall_app. repeat split; [| exact Hv |].
      * eapply Forall_impl; [exact Hkeep|exact Ha'].
      * eapply Forall_impl; [exact Hkeep|exact Hm].
    + eapply Forall_impl; [|exact Hreq].
      intros x [Hin|Hx]; [|exact Hx].
      rewrite Forall_forall in Hr. now apply Hr.
Qed.

Lemma after_all_well_formed calls : forall p,
  well_formed p -> well_formed (after_all calls p).
Proof.
  induction calls as [|c rest IH]; intros p Hwf; [exact Hwf|].
  cbn [after_all]. apply IH. now apply after_well_formed.
Qed.

(** X20: on every channel reached from [setup] by any sequence of calls,
    the scripts of all commits decode and all pending secrets have a hash,
    so payout recovery is always available: [get_payout_recoverable] and
    [update] return, they do not raise. *)
Theorem reachable_channels_recover wif secret p0 calls :
  let p := after_all calls (after (CallSetup wif secret) p0) in
  well_formed p
  /\ (exists scripts, get_payout_recoverable p = (Ret scripts, p))
  /\ (exists p', update p = (Ret tt, p')).
Proof.
  intros p.
  assert (Hwf : well_formed p).
  { apply after_all_well_formed. cbn [after]. rewrite setup_run.
    split; constructor. }
  split; [exact Hwf|]. destruct Hwf as [Hs _]. split.
  - eexists. now apply get_payout_recoverable_run.
  - eexists. now apply update_run.
Qed.

Lemma after_secrets c p :
  NoDup (all_secrets p) ->
  match c with
  | CallRequestCommit _ entropy => ~ In (b2h entropy) (all_secrets p)
  | _ => True
  end ->
  NoDup (all_secrets (after c p)).
Proof.
  intros Hnd Hfresh. destruct (is_setup c) eqn:Hc.
  - destruct c; try discriminate. cbn [after]. rewrite setup_run. constructor.
  - destruct (after_evolves c p Hc)
      as (_ & _ & _ & _ & _ & moved & Ev & _ & _ & [Hp|(q & e & -> & Er & Ea & ->)]).
    + eapply Permutation_NoDup; [|exact Hnd]. unfold all_secrets.
      rewrite Ev. rewrite !map_app, !app_assoc.
      rewrite !map_app, !app_assoc in Hp. symmetry.
      rewrite <- (app_assoc _ (map revoke_secret (commits_revoked p))).
      rewrite (Permutation_app_comm (map revoke_secret (commits_revoked p))).
      rewrite app_assoc. apply Permutation_app_tail. exact Hp.
    + unfold all_secrets. rewrite Er, Ea, Ev, app_nil_r.
      rewrite <- app_assoc. cbn [app].
      apply NoDup_Add with (a := b2h e) (l := all_secrets p).
      * unfold all_secrets. apply Add_app.
      * split; assumption.
Qed.

Lemma after_all_secrets calls : forall p,
  NoDup (all_secrets p) -> fresh_entropy calls p ->
  NoDup (all_secrets (after_all calls p)).
Proof.
  induction calls as [|c rest IH]; intros p Hnd Hfresh; [exact Hnd|].
  destruct Hfresh as [Hc Hrest]. cbn [after_all].
  apply IH; [|exact Hrest]. now apply after_secrets.
Qed.

(** X21: the revoke secrets of a channel stay pairwise distinct: if they
    are, and every [request_commit] of a sequence of calls draws a secret
    the channel does not hold at that moment, then after the sequence the
    pending, active and revoked secrets are still pairwise distinct; in
    particular no active commit carries the secret of a revoked one. *)
Theorem secrets_stay_distinct calls p :
  NoDup (all_secrets p) -> fresh_entropy calls p ->
  NoDup (all_secrets (after_all calls p))
  /\ forall active revoked,
       In active (commits_active (after_all calls p)) ->
       In revoked (commits_revoked (after_all calls p)) ->
       revoke_secret active <> revoke_secret revoked.
Proof.
  intros Hnd Hfresh.
  pose proof (after_all_secrets calls p Hnd Hfresh) as Hn.
  split; [exact Hn|]. intros a r Ha Hr E.
  unfold all_secrets in Hn. apply NoDup_app_remove_l in Hn.
  rewrite map_app in Hn.
  apply (in_map revoke_secret) in Ha, Hr. rewrite E in Ha.
  apply in_split in Ha. destruct Ha as (l1 & l2 & Ea). rewrite Ea in Hn.
  rewrite <- app_assoc in Hn. cbn in Hn. apply NoDup_remove_2 in Hn.
  apply Hn. rewrite app_assoc. apply in_or_app. now right.
Qed.

(** X22: a commit that is revoked is never active again: through every
    sequence of calls without [setup] in which each [request_commit] draws a
    new secret, it stays in [commits_revoked] and no commit of
    [commits_active] carries its revoke secret. *)
Theorem revoked_never_active_again calls p c :
  no_setup calls ->
  NoDup (all_secrets p) -> fresh_entropy calls p ->
  In c (commits_revoked p) ->
  In c (commits_revoked (after_all calls p))
  /\ forall d, In d (commits_active (after_all calls p)) ->
               revoke_secret d <> revoke_secret c.
Proof.
  intros Hno Hnd Hfresh Hc.
  destruct (after_all_frame calls p Hno) as (_ & _ & _ & _ & _ & more & Ev).
  assert (Hc' : In c (commits_revoked (after_all calls p)))
    by (rewrite Ev; apply in_or_app; now left).
  split; [exact Hc'|]. intros d Hd E.
  pose proof (after_all_secrets calls p Hnd Hfresh) as Hn.
  unfold all_secrets in Hn. apply NoDup_app_remove_l in Hn.
  rewrite map_app in Hn.
  apply (in_map revoke_secret) in Hd, Hc'. rewrite E in Hd.
  apply in_split in Hd. destruct Hd as (l1 & l2 & Ea). rewrite Ea in Hn.
  rewrite <- app_assoc in Hn. cbn in Hn. apply NoDup_remove_2 in Hn.
  apply Hn. rewrite app_assoc. apply in_or_app. now right.
Qed.

End MoreFacts.

(** ** The theorems at work in the concrete world *)

#[local] Existing Instance Example.util.
#[local] Existing Instance Example.scripts.
#[local] Existing Instance Example.control.

Lemma example_commit_passes tx :
  bad_signature_count tx = Some 1 ->
  forall scr,
    get_commit_spend_secret_hash scr = "01ff" ->
    get_commit_payee_pubkey scr = "02" ->
    forall p, spend_secret p = Some "01" -> payee_wif p = Some "02" ->
    passes_commit_validation tx scr p.
Proof.
  intros Etx scr Eh Ek p Es Ew. split; [exact Etx|]. split.
  - exists "01". split; [exact Es|]. rewrite Eh. reflexivity.
  - exists "02". split; [exact Ew|]. rewrite Ek. reflexivity.
Qed.

(** With threshold 2 on the active quantities 2 and 5, only the commit of
    quantity 5 is revoked. *)
Lemma revoke_until_discloses_above_witness :
  NoDup (map revoke_secret (commits_active Example.opened))
  /\ revoke_until 2 Example.opened
     = (Ret ["0b"],
        set_commits_revoked [Example.commit2]
          (set_commits_active [Example.commit1] Example.opened)).
Proof.
  assert (Hnd : NoDup (map revoke_secret (commits_active Example.opened))).
  { cbn. constructor; [|constructor; [|constructor]]; cbn; intuition discriminate. }
  split; [exact Hnd|].
  destruct (revoke_until_discloses_above 2 Example.opened)
    as (secrets & p' & E & _ & Es & Hmove & _).
  rewrite E, Es, (Hmove Hnd). reflexivity.
Defined.

(** A script with the channel's own hash and key but an unknown
    revoke-secret hash: [set_commit] returns [None]. *)
Lemma set_commit_unknown_revoke_hash_witness :
  set_commit "txtxtxtx" "01ff020dff03" Example.opened
  = (Ret None, Example.opened).
Proof.
  refine (proj2 (set_commit_unknown_revoke_hash "txtxtxtx" "01ff020dff03"
                   [x01; xff; x02; x0d; xff; x03] Example.opened eq_refl _) _).
  - constructor; [|constructor].
    exists "0cff". split; [reflexivity|discriminate].
  - apply example_commit_passes; reflexivity.
Defined.


Lemma set_deposit_rejects_foreign_script_witness :
  set_deposit "deposit" Example.foreign_script Example.unopened
  = (Raise (ValueError "Incorrect spend secret hash: 07ff != 01ff"),
     Example.unopened).
Proof.
  refine (proj2 (set_deposit_rejects_foreign_script "deposit"
                   Example.foreign_script [x07; xff; x02; x00; x00; x00]
                   Example.unopened "01" "01ff" "02"
                   eq_refl eq_refl eq_refl eq_refl eq_refl (or_introl _)) _).
  - discriminate.
  - reflexivity.
Defined.

(** On a channel that already holds a deposit and commits, [setup] does not
    abort: it returns, and leaves the channel reset. *)
Lemma setup_on_open_channel_returns :
  _assert_unopen_state Example.opened = (Raise AssertionError, Example.opened)
  /\ setup "02" [x01] Example.opened = (Ret ("02", "01ff"), Example.unopened).
Proof. split; reflexivity. Qed.

Lemma increasing_commits_end_ordered_witness :
  exists p1 p2,
    request_commits [(2, [x0a]); (5, [x0b])] Example.unopened
    = (Ret [(2, "0aff"); (5, "0bff")], p1)
    /\ set_commits [("tx", "01ff020aff03"); ("txtxt", "01ff020bff03")] p1
       = (Ret [Some 2; Some 5], p2)
    /\ ascending (commits_active p2)
    /\ get_transferred_amount p2 = (Ret 5, p2).
Proof.
  destruct (increasing_commits_end_ordered Example.unopened
              [(2, [x0a]); (5, [x0b])]
              [("tx", "01ff020aff03"); ("txtxt", "01ff020bff03")])
    as (p1 & p2 & E1 & E2 & Hasc & Hlast);
    [..| exists p1, p2; exact (conj E1 (conj E2 (conj Hasc Hlast)))].
  - discriminate.
  - repeat constructor; cbn; discriminate.
  - constructor; [constructor; constructor|].
    constructor; [reflexivity|constructor].
  - constructor; [|constructor; [|constructor]].
    + split; [reflexivity|].
      exists [x01; xff; x02; x0a; xff; x03]. split; [reflexivity|].
      split; [apply example_commit_passes; reflexivity | reflexivity].
    + split; [reflexivity|].
      exists [x01; xff; x02; x0b; xff; x03]. split; [reflexivity|].
      split; [apply example_commit_passes; reflexivity | reflexivity].
  - constructor.
  - constructor.
Defined.

Lemma get_payout_recoverable_collects_witness :
  exists scripts,
    get_payout_recoverable Example.opened = (Ret scripts, Example.opened)
    /\ In [x01; xff; x02; x0a; xff; x03] scripts.
Proof.
  destruct (get_payout_recoverable_collects Example.opened)
    as (scripts & E & Hin & _).
  - repeat constructor; discriminate.
  - exists scripts. split; [exact E|]. apply Hin.
    exists Example.commit1. split; [now left|].
    split; [reflexivity|]. split; [reflexivity|]. split; [reflexivity|].
    eexists. split; [now left|]. cbn. discriminate.
Defined.

(** ** The further properties at work in the concrete world *)

#[local] Existing Instance ExampleBuilder.builder.
#[local] Existing Instance ExampleBuilder.validate.

Lemma example_deposit_passes :
  passes_deposit_validation "deposit" [x01; xff; x02; x00; x00; x00]
    Example.unopened.
Proof.
  split; [reflexivity|]. split.
  - exists "01". split; reflexivity.
  - exists "02". split; reflexivity.
Qed.

Lemma set_deposit_stores_deposit_witness :
  exists p',
    set_deposit "deposit" Example.deposit_script Example.unopened = (Ret tt, p')
    /\ deposit_rawtx p' = Some "deposit"
    /\ deposit_script_hex p' = Some Example.deposit_script.
Proof.
  destruct (set_deposit_stores_deposit "deposit" Example.deposit_script
              [x01; xff; x02; x00; x00; x00] Example.unopened
              eq_refl eq_refl example_deposit_passes)
    as (p' & E & Er & Es & _).
  exists p'. auto.
Defined.

Lemma set_deposit_only_validated_witness :
  set_deposit "deposit" Example.deposit_script Example.unopened
  = (Ret tt, deposited "deposit" Example.deposit_script Example.unopened)
  /\ _assert_unopen_state Example.unopened = (Ret tt, Example.unopened).
Proof.
  assert (E : set_deposit "deposit" Example.deposit_script Example.unopened
              = (Ret tt, deposited "deposit" Example.deposit_script
                           Example.unopened)) by reflexivity.
  split; [exact E|].
  exact (proj1 (set_deposit_only_validated _ _ _ _ _ E)).
Defined.

Lemma set_deposit_failure_keeps_channel_witness :
  set_deposit "!" Example.deposit_script Example.unopened
  = (Raise AssertionError, Example.unopened)
  /\ Example.unopened = Example.unopened.
Proof.
  assert (E : set_deposit "!" Example.deposit_script Example.unopened
              = (Raise AssertionError, Example.unopened)) by reflexivity.
  split; [exact E|].
  exact (set_deposit_failure_keeps_channel _ _ _ _ _ E).
Defined.

Lemma set_deposit_only_once_witness :
  set_deposit "other" Example.deposit_script
    (deposited "deposit" Example.deposit_script Example.unopened)
  = (Raise AssertionError,
     deposited "deposit" Example.deposit_script Example.unopened).
Proof.
  apply (set_deposit_only_once "deposit" Example.deposit_script
           Example.unopened tt).
  reflexivity.
Defined.

Lemma setup_then_set_deposit_witness :
  set_deposit "deposit" Example.deposit_script Example.unopened
  = (Ret tt, deposited "deposit" Example.deposit_script Example.unopened).
Proof.
  apply (setup_then_set_deposit "02" [x01] Example.opened "02" "01ff"
           Example.unopened "deposit" Example.deposit_script
           [x01; xff; x02; x00; x00; x00]); reflexivity.
Defined.

Lemma set_commit_only_validated_witness :
  exists secret,
    In secret (commits_requested Example.opened)
    /\ hash160hex secret = Some "0cff".
Proof.
  assert (E : set_commit "txtxtxtx" "01ff020cff03" Example.opened
              = (Ret (Some 8),
                 accepted "txtxtxtx" "01ff020cff03" "0c" [] Example.opened))
    by reflexivity.
  destruct (set_commit_only_validated _ _ _ _ _ E)
    as (scr & secret & Escr & _ & Hin & Eh & _).
  exists secret. split; [exact Hin|].
  rewrite Eh. injection Escr as <-. reflexivity.
Defined.

Lemma set_commit_touches_only_commits_witness :
  set_commit "txtxtxtx" "07ff020dff03" Example.opened
  = (Raise (ValueError "Incorrect spend secret hash: 07ff != 01ff"),
     Example.opened)
  /\ commits_revoked Example.opened = commits_revoked Example.opened.
Proof.
  assert (E : set_commit "txtxtxtx" "07ff020dff03" Example.opened
              = (Raise (ValueError "Incorrect spend secret hash: 07ff != 01ff"),
                 Example.opened)) by reflexivity.
  split; [exact E|].
  exact (proj1 (proj2 (proj2 (proj2 (proj2 (proj2 (proj2
           (set_commit_touches_only_commits _ _ _ _ _ E)))))))).
Defined.

Lemma request_commit_appends_secret_witness :
  exists secret,
    hash160hex secret = Some "0dff"
    /\ commits_requested
         (set_commits_requested ["0c"; "0d"] Example.opened)
       = commits_requested Example.opened ++ [secret].
Proof.
  assert (E : request_commit 9 [x0d] Example.opened
              = (Ret (9, "0dff"),
                 set_commits_requested ["0c"; "0d"] Example.opened))
    by reflexivity.
  destruct (request_commit_appends_secret _ _ _ _ _ E)
    as [(e & He & _)|(secret & h & Eo & Eh & Er & _)]; [discriminate|].
  exists secret. injection Eo as <-. auto.
Defined.

(** Of two active commits of the same quantity, the one accepted last is
    finalized. *)
Lemma close_channel_finalizes_highest_witness :
  close_channel ExampleBuilder.tied
  = (Ret "cd+01ff02000000",
     set_commits_active
       [mkCommit "ab" "01ff020aff03" "0a";
        mkCommit "cd+01ff02000000" "01ff020bff03" "0b"]
       ExampleBuilder.tied).
Proof.
  destruct (close_channel_finalizes_highest ExampleBuilder.tied
              Example.deposit_script [x01; xff; x02; x00; x00; x00])
    as (front & c & Es & _ & _ & E); [discriminate|reflexivity..|].
  cbn zeta in E. rewrite E.
  change (sort_commits (commits_active ExampleBuilder.tied))
    with ([mkCommit "ab" "01ff020aff03" "0a"]
          ++ [mkCommit "cd" "01ff020bff03" "0b"]) in Es.
  apply app_inj_tail in Es. destruct Es as [<- <-]. reflexivity.
Defined.

Lemma close_channel_without_deposit_witness :
  exists e,
    close_channel (set_deposit_script_hex None Example.opened)
    = (Raise e, set_deposit_script_hex None Example.opened).
Proof.
  destruct (close_channel_without_deposit
              (set_deposit_script_hex None Example.opened))
    as (e & E); [discriminate|now left|].
  exists e. exact E.
Defined.

Lemma get_payout_recoverable_per_utxo_witness :
  get_payout_recoverable Example.opened
  = (Ret [[x01; xff; x02; x0a; xff; x03]; [x01; xff; x02; x0b; xff; x03]],
     Example.opened).
Proof.
  refine (proj1 (get_payout_recoverable_per_utxo Example.opened _)).
  repeat constructor; discriminate.
Defined.

Lemma update_records_recoverable_witness :
  exists p',
    update Example.opened = (Ret tt, p')
    /\ payout_rawtxs p' = ["payout:01ff020aff03"; "payout:01ff020bff03"].
Proof.
  destruct (update_records_recoverable Example.opened)
    as (scripts & p' & Eg & Eu & Ep & _).
  - repeat constructor; discriminate.
  - exists p'. split; [exact Eu|]. rewrite Ep.
    assert (Es : scripts = [[x01; xff; x02; x0a; xff; x03];
                            [x01; xff; x02; x0b; xff; x03]])
      by (cbv in Eg; now injection Eg as <-).
    rewrite Es. reflexivity.
Defined.

Lemma update_twice_records_twice_witness :
  exists p1 p2,
    update Example.opened = (Ret tt, p1)
    /\ update p1 = (Ret tt, p2)
    /\ List.length (payout_rawtxs p2) = 4%nat.
Proof.
  destruct (update_twice_records_twice Example.opened)
    as (scripts & p1 & p2 & Eg & E1 & E2 & Ep).
  - repeat constructor; discriminate.
  - exists p1, p2. split; [exact E1|]. split; [exact E2|]. rewrite Ep.
    assert (Es : scripts = [[x01; xff; x02; x0a; xff; x03];
                            [x01; xff; x02; x0b; xff; x03]])
      by (cbv in Eg; now injection Eg as <-).
    rewrite Es. reflexivity.
Defined.

Lemma example_opened_distinct :
  NoDup (all_secrets Example.opened).
Proof.
  cbn. constructor; [|constructor; [|constructor; [|constructor]]];
    cbn; intuition discriminate.
Qed.

Lemma revoke_until_twice_witness :
  revoke_until 2
    (set_commits_revoked [Example.commit2]
       (set_commits_active [Example.commit1] Example.opened))
  = (Ret [],
     set_commits_revoked [Example.commit2]
       (set_commits_active [Example.commit1] Example.opened)).
Proof.
  refine (proj2 (proj2 (revoke_until_twice 2 Example.opened ["0b"] _ _ _))).
  - cbn. constructor; [|constructor; [|constructor]]; cbn;
      intuition discriminate.
  - reflexivity.
Defined.

(** A session on the open channel: a request, the commit that answers the
    pending one, a revocation, an attempt at a second deposit, closing and
    a sweep. *)
Lemma session_keeps_keys_witness :
  spend_secret
    (after_all
       [CallRequestCommit 9 [x0d]; CallSetCommit "txtxtxtx" "01ff020cff03";
        CallRevokeUntil 2; CallSetDeposit "other" Example.deposit_script;
        CallCloseChannel; CallUpdate]
       Example.opened)
  = Some "01".
Proof.
  refine (proj2 (proj2 (session_keeps_keys _ Example.opened _))).
  repeat constructor.
Defined.

Lemma deposit_is_immutable_witness :
  deposit_rawtx
    (after_all
       [CallSetDeposit "other" Example.deposit_script; CallCloseChannel]
       Example.opened)
  = Some "deposit".
Proof.
  refine (proj1 (deposit_is_immutable _ Example.opened _) _).
  - repeat constructor.
  - discriminate.
Defined.

Lemma revoked_stay_revoked_witness :
  exists more,
    commits_revoked
      (after_all [CallRevokeUntil 2; CallRevokeUntil 0] Example.opened)
    = [] ++ more.
Proof.
  apply (revoked_stay_revoked [CallRevokeUntil 2; CallRevokeUntil 0]
           Example.opened).
  repeat constructor.
Defined.

Lemma secrets_stay_distinct_witness :
  NoDup
    (all_secrets
       (after_all
          [CallRequestCommit 9 [x0d]; CallSetCommit "txtxtxtx" "01ff020cff03";
           CallRevokeUntil 2]
          Example.opened)).
Proof.
  refine (proj1 (secrets_stay_distinct _ Example.opened
                   example_opened_distinct _)).
  cbn. repeat split. intuition discriminate.
Defined.

Lemma revoked_never_active_again_witness :
  In Example.commit2
    (commits_revoked
       (after_all
          [CallRequestCommit 9 [x0d]; CallCloseChannel]
          (set_commits_revoked [Example.commit2]
             (set_commits_active [Example.commit1] Example.opened)))).
Proof.
  refine (proj1 (revoked_never_active_again _
                   (set_commits_revoked [Example.commit2]
                      (set_commits_active [Example.commit1] Example.opened))
                   Example.commit2 _ _ _ _)).
  - repeat constructor.
  - cbn. constructor; [|constructor; [|constructor; [|constructor]]];
      cbn; intuition discriminate.
  - cbn. repeat split. intuition discriminate.
  - now left.
Defined.
